(** * Menu widget (vs/base/browser/ui/menu/menu.ts): mnemonics, focus and
      the submenu life cycle

    A shallow embedding of the menu widget.  The first part embeds the
    string functions (the two mnemonic regular expressions, [cleanMnemonic],
    the mnemonic parse of the item constructor and [updateLabel]); the second
    part embeds the event handlers of [Menu] and [SubmenuMenuActionViewItem]
    as state transformers over one menu level.

    Strings are sequences of code units.  The embedding covers the code units
    0..255 (an [ascii] is read as the Latin-1 code unit of the same number);
    on this range [\s], [trim] and lower-casing are written out below. *)

From Stdlib Require Import ZArith Ascii String List Lia Bool.
From stdpp Require Import gmap strings list.

Local Open Scope nat_scope.
Local Open Scope list_scope.

(** ** Strings *)

Abbreviation jsstring := (list ascii).

(** A string literal of the source. *)
Definition js (s : string) : jsstring := list_ascii_of_string s.

Definition amp : ascii := "&"%char.
Definition lparen : ascii := "("%char.
Definition rparen : ascii := ")"%char.
Definition dquote : ascii := ascii_of_nat 34.

Definition is_amp (c : ascii) : bool := Ascii.eqb c amp.
Definition is_lparen (c : ascii) : bool := Ascii.eqb c lparen.
Definition is_rparen (c : ascii) : bool := Ascii.eqb c rparen.

(** The class [\s] (WhiteSpace and LineTerminator) on the code units 0..255:
    TAB, LF, VT, FF, CR, SP and NBSP. *)
Definition isWhiteSpace (c : ascii) : bool :=
  let n := nat_of_ascii c in
  ((9 <=? n) && (n <=? 13)) || (n =? 32) || (n =? 160).

(** The class [[^\s&]]. *)
Definition notSpaceAmp (c : ascii) : bool :=
  negb (isWhiteSpace c) && negb (is_amp c).

(** [toLocaleLowerCase] on one code unit of the range 0..255, for a host
    locale without special casing rules: A-Z and the Latin-1 capitals
    (U+00C0..U+00DE except the multiplication sign) move up by 32. *)
Definition lowerChar (c : ascii) : ascii :=
  let n := nat_of_ascii c in
  if ((65 <=? n) && (n <=? 90))
     || ((192 <=? n) && (n <=? 222) && negb (n =? 215))
  then ascii_of_nat (n + 32) else c.

Definition toLocaleLowerCase (s : jsstring) : jsstring := map lowerChar s.

(** [String.prototype.trim]. *)
Fixpoint trimStart (s : jsstring) : jsstring :=
  match s with
  | c :: tl => if isWhiteSpace c then trimStart tl else s
  | [] => []
  end.

Definition trim (s : jsstring) : jsstring :=
  rev (trimStart (rev (trimStart s))).

(** [s.substr(0, n)] and [s.substr(n)]. *)
Definition substr0 (s : jsstring) (n : nat) : jsstring := take n s.
Definition substrFrom (s : jsstring) (n : nat) : jsstring := drop n s.

Fixpoint startsWith (pat s : jsstring) : bool :=
  match pat, s with
  | [], _ => true
  | p :: pat', c :: s' => Ascii.eqb p c && startsWith pat' s'
  | _ :: _, [] => false
  end.

(** [s.replace(/pat/g, rep)] for a literal, non-empty pattern: matches are
    taken left to right and do not overlap.  [skip] counts the code units of
    the current match that are still to be consumed. *)
Fixpoint replaceAllFrom (pat rep : jsstring) (skip : nat) (s : jsstring)
  : jsstring :=
  match s with
  | [] => []
  | c :: tl =>
      match skip with
      | S k => replaceAllFrom pat rep k tl
      | O =>
          if startsWith pat s && negb (length pat =? 0)
          then rep ++ replaceAllFrom pat rep (length pat - 1) tl
          else c :: replaceAllFrom pat rep 0 tl
      end
  end.

Definition replaceAll (pat rep s : jsstring) : jsstring :=
  replaceAllFrom pat rep 0 s.

(** ** MENU_MNEMONIC_REGEX = /\(&([^\s&])\)|(^|[^&])&([^\s&])/ *)

(** The result array of [exec]: [index], [matches[0]] and the three groups
    ([None] is [undefined]). *)
Record RegExpMatch := {
  m_index : nat;
  m_text : jsstring;
  m_g1 : option ascii;
  m_g2 : option jsstring;
  m_g3 : option ascii
}.

(** First alternative, [\(&([^\s&])\)], at the head of [s]. *)
Definition matchParen (idx : nat) (s : jsstring) : option RegExpMatch :=
  match s with
  | c0 :: c1 :: c2 :: c3 :: _ =>
      if is_lparen c0 && is_amp c1 && notSpaceAmp c2 && is_rparen c3
      then Some {| m_index := idx; m_text := [c0; c1; c2; c3];
                   m_g1 := Some c2; m_g2 := None; m_g3 := None |}
      else None
  | _ => None
  end.

(** Second alternative, [(^|[^&])&([^\s&])], at the head of [s]; [bol] says
    that the head of [s] is the start of the input.  Inside the group the
    empty [^] is tried before [[^&]]. *)
Definition matchInText (bol : bool) (idx : nat) (s : jsstring)
  : option RegExpMatch :=
  let caret :=
    match s with
    | c0 :: c1 :: _ =>
        if bol && is_amp c0 && notSpaceAmp c1
        then Some {| m_index := idx; m_text := [c0; c1];
                     m_g1 := None; m_g2 := Some []; m_g3 := Some c1 |}
        else None
    | _ => None
    end in
  match caret with
  | Some m => Some m
  | None =>
      match s with
      | c0 :: c1 :: c2 :: _ =>
          if negb (is_amp c0) && is_amp c1 && notSpaceAmp c2
          then Some {| m_index := idx; m_text := [c0; c1; c2];
                       m_g1 := None; m_g2 := Some [c0]; m_g3 := Some c2 |}
          else None
      | _ => None
      end
  end.

Definition matchHere (bol : bool) (idx : nat) (s : jsstring)
  : option RegExpMatch :=
  match matchParen idx s with
  | Some m => Some m
  | None => matchInText bol idx s
  end.

(** The search of [exec]: the leftmost start position that matches. *)
Fixpoint execFrom (bol : bool) (idx : nat) (s : jsstring)
  : option RegExpMatch :=
  match matchHere bol idx s with
  | Some m => Some m
  | None =>
      match s with
      | [] => None
      | _ :: tl => execFrom false (S idx) tl
      end
  end.

Definition MENU_MNEMONIC_REGEX_exec (label : jsstring) : option RegExpMatch :=
  execFrom true 0 label.

(** [!!matches[1] ? matches[1] : matches[3]]: a captured code unit is a
    non-empty string, hence truthy; an [undefined] third group cannot occur
    together with an [undefined] first one. *)
Definition mnemonicGroup (m : RegExpMatch) : jsstring :=
  match m_g1 m with
  | Some c => [c]
  | None => match m_g3 m with Some c => [c] | None => [] end
  end.

(** [label.replace(MENU_MNEMONIC_REGEX, repl)]: the regular expression is not
    global, so only the first match is replaced.  [repl] is the expansion of
    the replacement template on the match. *)
Definition replaceFirst (label : jsstring) (m : RegExpMatch)
    (repl : jsstring) : jsstring :=
  substr0 label (m_index m) ++ repl
    ++ substrFrom label (m_index m + length (m_text m)).

(** The template ['$2$3']; an unset group expands to the empty string. *)
Definition template_2_3 (m : RegExpMatch) : jsstring :=
  default [] (m_g2 m) ++ match m_g3 m with Some c => [c] | None => [] end.

(** [cleanMnemonic] (menu.ts, 857-868). *)
Definition cleanMnemonic (label : jsstring) : jsstring :=
  match MENU_MNEMONIC_REGEX_exec label with
  | None => label
  | Some matches =>
      let mnemonicInText := negb (bool_decide (is_Some (m_g1 matches))) in
      trim (replaceFirst label matches
              (if mnemonicInText then template_2_3 matches else []))
  end.

(** The mnemonic parse of the [BaseMenuActionViewItem] constructor
    (menu.ts, 375-384); [opt_label] is [this.options.label] after its
    defaulting and the result is the field [mnemonic]. *)
Definition parseMnemonic (opt_label enableMnemonics : bool)
    (label : jsstring) : option jsstring :=
  if opt_label && enableMnemonics then
    match label with
    | [] => None
    | _ :: _ =>
        match MENU_MNEMONIC_REGEX_exec label with
        | Some matches => Some (toLocaleLowerCase (mnemonicGroup matches))
        | None => None
        end
    end
  else None.

(** ** strings.escape and MENU_ESCAPED_MNEMONIC_REGEX *)

(** Modelled from the spec: [strings.escape] (vs/base/common/strings) is not
    part of the sources at hand; section 4.2 has the label "escaped" before
    the underline markup is inserted, and the entity [&amp;] that the second
    regular expression looks for fixes what becomes of the marker: the three
    characters that are special in markup are replaced by their entities. *)
Definition escapeChar (c : ascii) : jsstring :=
  if Ascii.eqb c "<"%char then js "&lt;"
  else if Ascii.eqb c ">"%char then js "&gt;"
  else if is_amp c then js "&amp;"
  else [c].

Definition escape (html : jsstring) : jsstring := concat (map escapeChar html).

(** A match of [/(&amp;)?(&amp;)([^\s&])/g]: [index], the length of
    [escMatch[0]], whether the first group took part, and the third group. *)
Record EscMatch := {
  e_index : nat;
  e_length : nat;
  e_g1 : bool;
  e_g3 : ascii
}.

(** The expression at the head of [s]: the optional group is greedy, so the
    doubled entity is tried first and the single one on backtracking. *)
Definition escMatchHere (idx : nat) (s : jsstring) : option EscMatch :=
  let single :=
    if startsWith (js "&amp;") s then
      match drop 5 s with
      | c :: _ =>
          if notSpaceAmp c
          then Some {| e_index := idx; e_length := 6; e_g1 := false; e_g3 := c |}
          else None
      | [] => None
      end
    else None in
  if startsWith (js "&amp;&amp;") s then
    match drop 10 s with
    | c :: _ =>
        if notSpaceAmp c
        then Some {| e_index := idx; e_length := 11; e_g1 := true; e_g3 := c |}
        else single
    | [] => single
    end
  else single.

(** The [exec] loop of [updateLabel] (menu.ts, 485-491): [lastIndex] is reset,
    the global expression is run, and run again from the end of the previous
    match for as long as the match has its first group.  [skip] counts the
    code units up to [lastIndex]; the first match without the first group is
    the result, and a failed search ends the loop with [null]. *)
Fixpoint escLoop (skip idx : nat) (s : jsstring) : option EscMatch :=
  match s with
  | [] => None
  | _ :: tl =>
      match skip with
      | S k => escLoop k (S idx) tl
      | O =>
          match escMatchHere idx s with
          | Some e =>
              if e_g1 e then escLoop (e_length e - 1) (S idx) tl else Some e
          | None => escLoop 0 (S idx) tl
          end
      end
  end.

Definition underlineOpen : jsstring :=
  js "<u aria-hidden=" ++ [dquote] ++ js "true" ++ [dquote] ++ js ">".
Definition underlineClose : jsstring := js "</u>".

(** What [updateLabel] writes: [label.innerHTML], the [aria-label] of the
    label element and, when the label has a mnemonic, the
    [aria-keyshortcuts] of the item element. *)
Record RenderedLabel := {
  innerHTML : jsstring;
  aria_label : option jsstring;
  aria_keyshortcuts : option jsstring
}.

(** [BaseMenuActionViewItem.updateLabel] (menu.ts, 466-510) on a rendered
    item ([this.label] and [this.item] exist); [None] when [options.label]
    is off and nothing is written. *)
Definition updateLabel (opt_label enableMnemonics : bool)
    (actionLabel : jsstring) : option RenderedLabel :=
  if opt_label then
    match actionLabel with
    | [] =>
        Some {| innerHTML := trim actionLabel; aria_label := None;
                aria_keyshortcuts := None |}
    | _ :: _ =>
        let cleanLabel := cleanMnemonic actionLabel in
        let label := if negb enableMnemonics then cleanLabel else actionLabel in
        let aria := replaceAll (js "&&") (js "&") cleanLabel in
        match MENU_MNEMONIC_REGEX_exec label with
        | Some matches =>
            let label := escape label in
            let label :=
              match escLoop 0 0 label with
              | Some escMatch =>
                  substr0 label (e_index escMatch)
                    ++ underlineOpen ++ [e_g3 escMatch] ++ underlineClose
                    ++ substrFrom label (e_index escMatch + e_length escMatch)
              | None => label
              end in
            let label := replaceAll (js "&amp;&amp;") (js "&amp;") label in
            Some {| innerHTML := trim label; aria_label := Some aria;
                    aria_keyshortcuts :=
                      Some (toLocaleLowerCase (mnemonicGroup matches)) |}
        | None =>
            let label := replaceAll (js "&&") (js "&") label in
            Some {| innerHTML := trim label; aria_label := Some aria;
                    aria_keyshortcuts := None |}
        end
    end
  else None.

(** [s.includes(pat)]. *)
Fixpoint includes (pat s : jsstring) : bool :=
  startsWith pat s || match s with [] => false | _ :: tl => includes pat tl end.

(** The rendered label has an underlined character. *)
Definition hasUnderline (r : RenderedLabel) : bool :=
  includes (js "<u") (innerHTML r).

(** The rendered label underlines the code unit [c]. *)
Definition underlines (c : ascii) (r : RenderedLabel) : bool :=
  includes (underlineOpen ++ [c] ++ underlineClose) (innerHTML r).


(** * One menu level as a state machine *)

(** ** Actions, options and collaborators *)

(** Object identities: a [Menu] created by [new Menu], a DOM element. *)
Abbreviation MenuId := nat.
Abbreviation ElemId := nat.

(** [action instanceof Separator], [action instanceof SubmenuAction], or
    neither. *)
Inductive ActionKind := SeparatorKind | SubmenuActionKind | PlainActionKind.

Record IAction := {
  a_id : nat;
  a_label : jsstring;
  a_enabled : bool;
  a_kind : ActionKind
}.

(** The [context] of an item view: the value of [options.context], or the
    action itself, which the item constructors hand to their base class
    ([super(action, action, options)]). *)
Inductive Context := CtxValue (v : nat) | CtxAction (id : nat).

(** The fields of [IMenuOptions] that the handlers read. *)
Record IMenuOptions := {
  o_context : Context;
  o_enableMnemonics : bool
}.

Inductive KeyCode :=
  Enter | Space | Tab | LeftArrow | RightArrow | Home | End_ | PageUp
| PageDown | Escape | OtherKey.

Definition KeyCode_eqb (a b : KeyCode) : bool :=
  match a, b with
  | Enter, Enter | Space, Space | Tab, Tab | LeftArrow, LeftArrow
  | RightArrow, RightArrow | Home, Home | End_, End_ | PageUp, PageUp
  | PageDown, PageDown | Escape, Escape | OtherKey, OtherKey => true
  | _, _ => false
  end.

(** Modelled from the spec: the keyboard contract of section 6, with the
    standardized key identifiers that [StandardKeyboardEvent]
    (vs/base/browser/keyboardEvent) derives from a DOM event.  A key event
    carries [e.key] and whether a modifier is held; its key code follows from
    the key value. *)
Record KeyboardEvent := {
  key : jsstring;
  modifiers : bool
}.

Definition keyCodeOf (k : jsstring) : KeyCode :=
  if bool_decide (k = js "Enter") then Enter
  else if bool_decide (k = js " ") then Space
  else if bool_decide (k = js "Tab") then Tab
  else if bool_decide (k = js "ArrowLeft") then LeftArrow
  else if bool_decide (k = js "ArrowRight") then RightArrow
  else if bool_decide (k = js "Home") then Home
  else if bool_decide (k = js "End") then End_
  else if bool_decide (k = js "PageUp") then PageUp
  else if bool_decide (k = js "PageDown") then PageDown
  else if bool_decide (k = js "Escape") then Escape
  else OtherKey.

(** [new StandardKeyboardEvent(e).equals(k)]: the plain key, no modifier. *)
Definition equals (e : KeyboardEvent) (k : KeyCode) : bool :=
  KeyCode_eqb (keyCodeOf (key e)) k && negb (modifiers e).

(** Modelled from the spec: [RunOnceScheduler] (vs/base/common/async) is
    outside the sources; section 5 and section 9 describe it as a one-shot,
    cancellable timer owned by a component.  [scheduled] says that a timeout
    is pending, [runner] that the callback is still attached ([dispose]
    cancels and detaches it), [timeout] is the delay in ms. *)
Record RunOnceScheduler := {
  timeout : nat;
  scheduled : bool;
  runner : bool
}.

Definition RunOnceScheduler_new (delay : nat) : RunOnceScheduler :=
  {| timeout := delay; scheduled := false; runner := true |}.
Definition schedule (s : RunOnceScheduler) : RunOnceScheduler :=
  {| timeout := timeout s; scheduled := true; runner := runner s |}.
Definition cancel (s : RunOnceScheduler) : RunOnceScheduler :=
  {| timeout := timeout s; scheduled := false; runner := runner s |}.
Definition RunOnceScheduler_dispose (s : RunOnceScheduler) : RunOnceScheduler :=
  {| timeout := timeout s; scheduled := false; runner := false |}.
(** The timeout elapses: the scheduler is idle again. *)
Definition onTimeout (s : RunOnceScheduler) : RunOnceScheduler := cancel s.

Inductive TimerName := MouseUpTimer | ShowTimer | HideTimer.

(** What a handler does to its collaborators, newest first in [log]. *)
Inductive Effect :=
| MenuConstructed (sm : MenuId) (owner : nat)   (* new Menu(...) in item owner *)
| SlotAssigned (v : option MenuId)              (* parentData.submenu = v *)
| MenuDisposed (sm : MenuId)                    (* sm.dispose() *)
| SubmenuFocus (sm : MenuId) (selectFirst : bool) (* sm.focus(selectFirst) *)
| FocusCalled (arg : option bool)               (* parentData.parent.focus(arg) *)
| FocusUpdated                                  (* updateFocus() *)
| ActionRun (action : nat) (ctx : Context)      (* actionRunner.run(action, ctx) *)
| CallbackRun (item : nat) (t : TimerName).     (* a scheduler ran its callback *)

(** ** Item views *)

(** The class of an item view, as the [instanceof] tests see it. *)
Inductive ItemClass :=
  MenuSeparatorActionViewItem | BaseMenuActionViewItem
| SubmenuMenuActionViewItem.

(** An item view.  The fields from [mysubmenu] on belong to
    [SubmenuMenuActionViewItem]; [listening] says that the listeners added
    through [_register] in [render] are attached, [submenuDisposables] that
    the listeners of the submenu container are, [mouseUpListener] that the
    deferred mouse-up listener is. *)
Record ViewItem := {
  cls : ItemClass;
  _action : IAction;
  _context : Context;
  element : option ElemId;
  container : option ElemId;
  mnemonic : option jsstring;
  listening : bool;
  runOnceToEnableMouseUp : RunOnceScheduler;
  mouseUpListener : bool;
  mysubmenu : option MenuId;
  submenuContainer : bool;
  submenuDisposables : bool;
  mouseOver : bool;
  showScheduler : RunOnceScheduler;
  hideScheduler : RunOnceScheduler
}.

Definition set__context (v : Context) (x : ViewItem) : ViewItem :=
  {| cls := cls x; _action := _action x; _context := v; element :=
     element x; container := container x; mnemonic := mnemonic x;
     listening := listening x; runOnceToEnableMouseUp :=
     runOnceToEnableMouseUp x; mouseUpListener := mouseUpListener x;
     mysubmenu := mysubmenu x; submenuContainer := submenuContainer x;
     submenuDisposables := submenuDisposables x; mouseOver := mouseOver
     x; showScheduler := showScheduler x; hideScheduler := hideScheduler
     x |}.

Definition set_element (v : option ElemId) (x : ViewItem) : ViewItem :=
  {| cls := cls x; _action := _action x; _context := _context x; element
     := v; container := container x; mnemonic := mnemonic x; listening
     := listening x; runOnceToEnableMouseUp := runOnceToEnableMouseUp x;
     mouseUpListener := mouseUpListener x; mysubmenu := mysubmenu x;
     submenuContainer := submenuContainer x; submenuDisposables :=
     submenuDisposables x; mouseOver := mouseOver x; showScheduler :=
     showScheduler x; hideScheduler := hideScheduler x |}.

Definition set_container (v : option ElemId) (x : ViewItem) : ViewItem :=
  {| cls := cls x; _action := _action x; _context := _context x; element
     := element x; container := v; mnemonic := mnemonic x; listening :=
     listening x; runOnceToEnableMouseUp := runOnceToEnableMouseUp x;
     mouseUpListener := mouseUpListener x; mysubmenu := mysubmenu x;
     submenuContainer := submenuContainer x; submenuDisposables :=
     submenuDisposables x; mouseOver := mouseOver x; showScheduler :=
     showScheduler x; hideScheduler := hideScheduler x |}.

Definition set_listening (v : bool) (x : ViewItem) : ViewItem :=
  {| cls := cls x; _action := _action x; _context := _context x; element
     := element x; container := container x; mnemonic := mnemonic x;
     listening := v; runOnceToEnableMouseUp := runOnceToEnableMouseUp x;
     mouseUpListener := mouseUpListener x; mysubmenu := mysubmenu x;
     submenuContainer := submenuContainer x; submenuDisposables :=
     submenuDisposables x; mouseOver := mouseOver x; showScheduler :=
     showScheduler x; hideScheduler := hideScheduler x |}.

Definition set_runOnceToEnableMouseUp (v : RunOnceScheduler) (x : ViewItem) : ViewItem :=
  {| cls := cls x; _action := _action x; _context := _context x; element
     := element x; container := container x; mnemonic := mnemonic x;
     listening := listening x; runOnceToEnableMouseUp := v;
     mouseUpListener := mouseUpListener x; mysubmenu := mysubmenu x;
     submenuContainer := submenuContainer x; submenuDisposables :=
     submenuDisposables x; mouseOver := mouseOver x; showScheduler :=
     showScheduler x; hideScheduler := hideScheduler x |}.

Definition set_mouseUpListener (v : bool) (x : ViewItem) : ViewItem :=
  {| cls := cls x; _action := _action x; _context := _context x; element
     := element x; container := container x; mnemonic := mnemonic x;
     listening := listening x; runOnceToEnableMouseUp :=
     runOnceToEnableMouseUp x; mouseUpListener := v; mysubmenu :=
     mysubmenu x; submenuContainer := submenuContainer x;
     submenuDisposables := submenuDisposables x; mouseOver := mouseOver
     x; showScheduler := showScheduler x; hideScheduler := hideScheduler
     x |}.

Definition set_mysubmenu (v : option MenuId) (x : ViewItem) : ViewItem :=
  {| cls := cls x; _action := _action x; _context := _context x; element
     := element x; container := container x; mnemonic := mnemonic x;
     listening := listening x; runOnceToEnableMouseUp :=
     runOnceToEnableMouseUp x; mouseUpListener := mouseUpListener x;
     mysubmenu := v; submenuContainer := submenuContainer x;
     submenuDisposables := submenuDisposables x; mouseOver := mouseOver
     x; showScheduler := showScheduler x; hideScheduler := hideScheduler
     x |}.

Definition set_submenuContainer (v : bool) (x : ViewItem) : ViewItem :=
  {| cls := cls x; _action := _action x; _context := _context x; element
     := element x; container := container x; mnemonic := mnemonic x;
     listening := listening x; runOnceToEnableMouseUp :=
     runOnceToEnableMouseUp x; mouseUpListener := mouseUpListener x;
     mysubmenu := mysubmenu x; submenuContainer := v; submenuDisposables
     := submenuDisposables x; mouseOver := mouseOver x; showScheduler :=
     showScheduler x; hideScheduler := hideScheduler x |}.

Definition set_submenuDisposables (v : bool) (x : ViewItem) : ViewItem :=
  {| cls := cls x; _action := _action x; _context := _context x; element
     := element x; container := container x; mnemonic := mnemonic x;
     listening := listening x; runOnceToEnableMouseUp :=
     runOnceToEnableMouseUp x; mouseUpListener := mouseUpListener x;
     mysubmenu := mysubmenu x; submenuContainer := submenuContainer x;
     submenuDisposables := v; mouseOver := mouseOver x; showScheduler :=
     showScheduler x; hideScheduler := hideScheduler x |}.

Definition set_mouseOver (v : bool) (x : ViewItem) : ViewItem :=
  {| cls := cls x; _action := _action x; _context := _context x; element
     := element x; container := container x; mnemonic := mnemonic x;
     listening := listening x; runOnceToEnableMouseUp :=
     runOnceToEnableMouseUp x; mouseUpListener := mouseUpListener x;
     mysubmenu := mysubmenu x; submenuContainer := submenuContainer x;
     submenuDisposables := submenuDisposables x; mouseOver := v;
     showScheduler := showScheduler x; hideScheduler := hideScheduler x |}.

Definition set_showScheduler (v : RunOnceScheduler) (x : ViewItem) : ViewItem :=
  {| cls := cls x; _action := _action x; _context := _context x; element
     := element x; container := container x; mnemonic := mnemonic x;
     listening := listening x; runOnceToEnableMouseUp :=
     runOnceToEnableMouseUp x; mouseUpListener := mouseUpListener x;
     mysubmenu := mysubmenu x; submenuContainer := submenuContainer x;
     submenuDisposables := submenuDisposables x; mouseOver := mouseOver
     x; showScheduler := v; hideScheduler := hideScheduler x |}.

Definition set_hideScheduler (v : RunOnceScheduler) (x : ViewItem) : ViewItem :=
  {| cls := cls x; _action := _action x; _context := _context x; element
     := element x; container := container x; mnemonic := mnemonic x;
     listening := listening x; runOnceToEnableMouseUp :=
     runOnceToEnableMouseUp x; mouseUpListener := mouseUpListener x;
     mysubmenu := mysubmenu x; submenuContainer := submenuContainer x;
     submenuDisposables := submenuDisposables x; mouseOver := mouseOver
     x; showScheduler := showScheduler x; hideScheduler := v |}.

Definition isEnabled (it : ViewItem) : bool := a_enabled (_action it).
Definition getMnemonic (it : ViewItem) : option jsstring := mnemonic it.

Definition isSubmenuItem (it : ViewItem) : bool :=
  match cls it with SubmenuMenuActionViewItem => true | _ => false end.

(** [item instanceof BaseMenuActionViewItem], true of the subclass too. *)
Definition isBaseMenuItem (it : ViewItem) : bool :=
  match cls it with MenuSeparatorActionViewItem => false | _ => true end.

(** The constructors (menu.ts, 366-403 and 629-652).  [options.label] is
    [undefined] in every call of this file and defaults to [true]. *)
Definition BaseMenuActionViewItem_new (c : ItemClass) (action : IAction)
    (enableMnemonics : bool) : ViewItem :=
  {| cls := c; _action := action; _context := CtxAction (a_id action);
     element := None; container := None;
     mnemonic := parseMnemonic true enableMnemonics (a_label action);
     listening := false;
     runOnceToEnableMouseUp := RunOnceScheduler_new 100;
     mouseUpListener := false;
     mysubmenu := None; submenuContainer := false;
     submenuDisposables := false; mouseOver := false;
     showScheduler := RunOnceScheduler_new 250;
     hideScheduler := RunOnceScheduler_new 750 |}.

Definition MenuSeparatorActionViewItem_new (ctx : Context) (action : IAction)
  : ViewItem :=
  set__context ctx
    (BaseMenuActionViewItem_new MenuSeparatorActionViewItem action false).

(** [render] (menu.ts, 405-442 and 654-710): the element and the container
    are the list element handed in by the action bar, the mouse-up timer is
    armed and the listeners are attached.  A separator view only takes the
    element. *)
Definition render (li : ElemId) (it : ViewItem) : ViewItem :=
  match cls it with
  | MenuSeparatorActionViewItem => set_element (Some li) it
  | _ =>
      set_listening true
        (set_runOnceToEnableMouseUp (schedule (runOnceToEnableMouseUp it))
           (set_container (Some li) (set_element (Some li) it)))
  end.

(** ** The menu *)

(** One [Menu] with its items.  [submenu] is the field of the shared
    [ISubMenuData] record [parentData] (its [parent] is this menu);
    [children] are the children of [actionsList]; the arrays of [mnemonics]
    hold items by their position in [viewItems]; [nextMenu] is the identity
    the next [new Menu] receives. *)
Record Menu := {
  viewItems : list ViewItem;
  focusedItem : option Z;
  mnemonics : gmap jsstring (list nat);
  children : list ElemId;
  options : IMenuOptions;
  isLinux : bool;
  submenu : option MenuId;
  nextMenu : MenuId;
  log : list Effect
}.

Definition set_viewItems (v : list ViewItem) (x : Menu) : Menu :=
  {| viewItems := v; focusedItem := focusedItem x; mnemonics :=
     mnemonics x; children := children x; options := options x; isLinux
     := isLinux x; submenu := submenu x; nextMenu := nextMenu x; log :=
     log x |}.

Definition set_focusedItem (v : option Z) (x : Menu) : Menu :=
  {| viewItems := viewItems x; focusedItem := v; mnemonics := mnemonics
     x; children := children x; options := options x; isLinux := isLinux
     x; submenu := submenu x; nextMenu := nextMenu x; log := log x |}.

Definition set_mnemonics (v : gmap jsstring (list nat)) (x : Menu) : Menu :=
  {| viewItems := viewItems x; focusedItem := focusedItem x; mnemonics
     := v; children := children x; options := options x; isLinux :=
     isLinux x; submenu := submenu x; nextMenu := nextMenu x; log := log
     x |}.

Definition set_children (v : list ElemId) (x : Menu) : Menu :=
  {| viewItems := viewItems x; focusedItem := focusedItem x; mnemonics
     := mnemonics x; children := v; options := options x; isLinux :=
     isLinux x; submenu := submenu x; nextMenu := nextMenu x; log := log
     x |}.

Definition set_submenu (v : option MenuId) (x : Menu) : Menu :=
  {| viewItems := viewItems x; focusedItem := focusedItem x; mnemonics
     := mnemonics x; children := children x; options := options x;
     isLinux := isLinux x; submenu := v; nextMenu := nextMenu x; log :=
     log x |}.

Definition set_nextMenu (v : MenuId) (x : Menu) : Menu :=
  {| viewItems := viewItems x; focusedItem := focusedItem x; mnemonics
     := mnemonics x; children := children x; options := options x;
     isLinux := isLinux x; submenu := submenu x; nextMenu := v; log :=
     log x |}.

Definition set_log (v : list Effect) (x : Menu) : Menu :=
  {| viewItems := viewItems x; focusedItem := focusedItem x; mnemonics
     := mnemonics x; children := children x; options := options x;
     isLinux := isLinux x; submenu := submenu x; nextMenu := nextMenu x;
     log := v |}.

Definition emit (e : Effect) (m : Menu) : Menu := set_log (e :: log m) m.

Definition setItem (i : nat) (it : ViewItem) (m : Menu) : Menu :=
  set_viewItems (<[i := it]> (viewItems m)) m.

(** [this.viewItems[index]] for a number [index]; [None] is [undefined]. *)
Definition itemAt (m : Menu) (index : Z) : option ViewItem :=
  if (index <? 0)%Z then None else viewItems m !! Z.to_nat index.

Definition isEnabledAt (m : Menu) (index : Z) : bool :=
  match itemAt m index with Some it => isEnabled it | None => false end.

(** *** The inherited action bar *)

(** [Menu.updateFocus] (menu.ts, 280-291): focus and blur the item elements
    and refresh the scroll position; the state of this level is unchanged. *)
Definition updateFocus (m : Menu) : Menu := emit FocusUpdated m.

(** Modelled from the spec: [ActionBar.focusNext] is outside the sources;
    section 4.1 has a wrap-around traversal over the focusable items only,
    entered at the boundary when nothing is focused, and section 4.2 has an
    item focusable unless it is a separator or disabled, that is, unless its
    action is not enabled.  The candidates are the positions after the
    current one in cyclic order, the current one last; the first enabled one
    is taken and the focus is dropped when there is none.  A menu without
    items is left alone. *)
Definition focusNext (m : Menu) : Menu :=
  let n := length (viewItems m) in
  match n with
  | O => m
  | S _ =>
      let startIndex := default (Z.of_nat n - 1)%Z (focusedItem m) in
      let candidates :=
        map (fun k => ((startIndex + 1 + Z.of_nat k) `mod` Z.of_nat n)%Z)
            (seq 0 n) in
      updateFocus
        (set_focusedItem (List.find (isEnabledAt m) candidates) m)
  end.

(** Modelled from the spec: [ActionBar.focusPrevious], the same traversal in
    the other direction, entered at position 0 when nothing is focused. *)
Definition focusPrevious (m : Menu) : Menu :=
  let n := length (viewItems m) in
  match n with
  | O => m
  | S _ =>
      let startIndex := default 0%Z (focusedItem m) in
      let candidates :=
        map (fun k => ((startIndex - 1 - Z.of_nat k) `mod` Z.of_nat n)%Z)
            (seq 0 n) in
      updateFocus
        (set_focusedItem (List.find (isEnabledAt m) candidates) m)
  end.

(** Modelled from the spec: [ActionBar.focus(selectFirst)], section 4.1:
    with [selectFirst] (the default) and nothing focused, the first
    focusable item is entered; otherwise the focus is only refreshed. *)
Definition focus (arg : option bool) (m : Menu) : Menu :=
  let m := emit (FocusCalled arg) m in
  if default true arg && negb (bool_decide (is_Some (focusedItem m)))
  then focusNext (set_focusedItem (Some (-1)%Z) m)
  else updateFocus m.

(** Modelled from the spec: [ActionBar.focus(index)], section 4.1: the focus
    moves to the specified item. *)
Definition focusIndex (index : Z) (m : Menu) : Menu :=
  updateFocus (set_focusedItem (Some index) m).

(** Modelled from the spec: [ActionBar.run], section 6: activation hands
    the action and the context to the action runner. *)
Definition run (action : IAction) (ctx : Context) (m : Menu) : Menu :=
  emit (ActionRun (a_id action) ctx) m.

(** *** Focus by element (menu.ts, 261-278) *)

Fixpoint indexOfFrom (i : nat) (e : ElemId) (l : list ElemId) : option nat :=
  match l with
  | [] => None
  | x :: tl => if x =? e then Some i else indexOfFrom (S i) e tl
  end.

Definition setFocusedItem (e : ElemId) (m : Menu) : Menu :=
  match indexOfFrom 0 e (children m) with
  | Some i => set_focusedItem (Some (Z.of_nat i)) m
  | None => m
  end.

Definition focusItemByElement (e : ElemId) (m : Menu) : Menu :=
  let lastFocusedItem := focusedItem m in
  let m := setFocusedItem e m in
  if bool_decide (lastFocusedItem = focusedItem m) then m else updateFocus m.

(** ** SubmenuMenuActionViewItem (menu.ts, 619-847) *)

(** [this.parentData.submenu === this.mysubmenu] for a slot that holds [sm]
    (an empty slot is [undefined] and [mysubmenu] is a menu or [null], so an
    empty slot is never equal to it). *)
Definition isMySubmenu (sm : MenuId) (it : ViewItem) : bool :=
  match mysubmenu it with Some mine => sm =? mine | None => false end.

Definition cleanupExistingSubmenu (force : bool) (i : nat) (m : Menu) : Menu :=
  match viewItems m !! i, submenu m with
  | Some it, Some sm =>
      if force || negb (isMySubmenu sm it) then
        let m := emit (MenuDisposed sm) m in
        let m := emit (SlotAssigned None) (set_submenu None m) in
        if submenuContainer it
        then setItem i
               (set_submenuContainer false (set_submenuDisposables false it)) m
        else m
      else m
  | _, _ => m
  end.

Definition createSubmenu (selectFirstItem : bool) (i : nat) (m : Menu)
  : Menu :=
  match viewItems m !! i with
  | None => m
  | Some it =>
      match element it with
      | None => m
      | Some _ =>
          match submenu m with
          | None =>
              let sm := nextMenu m in
              let m := emit (MenuConstructed sm i) (set_nextMenu (S sm) m) in
              let m := emit (SlotAssigned (Some sm)) (set_submenu (Some sm) m) in
              let m := emit (SubmenuFocus sm selectFirstItem) m in
              setItem i
                (set_mysubmenu (Some sm)
                   (set_submenuDisposables true
                      (set_submenuContainer true it))) m
          | Some sm => emit (SubmenuFocus sm false) m
          end
      end
  end.

(** [open(selectFirst?)]: an omitted argument takes the default [true] of
    [createSubmenu]. *)
Definition open (selectFirst : option bool) (i : nat) (m : Menu) : Menu :=
  createSubmenu (default true selectFirst) i (cleanupExistingSubmenu false i m).

Definition SubmenuMenuActionViewItem_onClick (i : nat) (m : Menu) : Menu :=
  createSubmenu true i (cleanupExistingSubmenu false i m).

(** Modelled from the spec: [BaseActionViewItem.onClick] is outside the
    sources; section 4.2 has the item trigger activation, which hands its
    action and its context to the action runner. *)
Definition BaseActionViewItem_onClick (it : ViewItem) (m : Menu) : Menu :=
  run (_action it) (_context it) m.

(** [item.onClick(e)] with the dispatch on the class of the item. *)
Definition onClick (i : nat) (m : Menu) : Menu :=
  match viewItems m !! i with
  | None => m
  | Some it =>
      match cls it with
      | SubmenuMenuActionViewItem => SubmenuMenuActionViewItem_onClick i m
      | _ => BaseActionViewItem_onClick it m
      end
  end.

(** The callbacks of the three schedulers (menu.ts, 387-400 and 639-652).
    [focusInside] is [isAncestor(document.activeElement, this.element)]. *)
Definition showCallback (i : nat) (m : Menu) : Menu :=
  match viewItems m !! i with
  | None => m
  | Some it =>
      if mouseOver it
      then createSubmenu false i (cleanupExistingSubmenu false i m)
      else m
  end.

Definition hideCallback (focusInside : bool) (i : nat) (m : Menu) : Menu :=
  match viewItems m !! i with
  | None => m
  | Some it =>
      if bool_decide (is_Some (element it)) && negb focusInside
         && match submenu m with
            | Some sm => isMySubmenu sm it
            | None => false
            end
      then cleanupExistingSubmenu true i (focus (Some false) m)
      else m
  end.

Definition mouseUpCallback (i : nat) (m : Menu) : Menu :=
  match viewItems m !! i with
  | None => m
  | Some it =>
      match element it with
      | None => m
      | Some _ => setItem i (set_mouseUpListener true it) m
      end
  end.

Definition schedulerOf (t : TimerName) (it : ViewItem) : RunOnceScheduler :=
  match t with
  | MouseUpTimer => runOnceToEnableMouseUp it
  | ShowTimer => showScheduler it
  | HideTimer => hideScheduler it
  end.

Definition set_schedulerOf (t : TimerName) (s : RunOnceScheduler)
    (it : ViewItem) : ViewItem :=
  match t with
  | MouseUpTimer => set_runOnceToEnableMouseUp s it
  | ShowTimer => set_showScheduler s it
  | HideTimer => set_hideScheduler s it
  end.

(** Only a separator view has no mouse-up scheduler, only a submenu item has
    the other two. *)
Definition hasScheduler (t : TimerName) (it : ViewItem) : bool :=
  match t with
  | MouseUpTimer => isBaseMenuItem it
  | _ => isSubmenuItem it
  end.

(** The timeout of scheduler [t] of item [i] elapses: nothing happens unless
    it is pending; the scheduler becomes idle and its callback runs if it is
    still attached. *)
Definition timerFires (i : nat) (t : TimerName) (focusInside : bool)
    (m : Menu) : Menu :=
  match viewItems m !! i with
  | None => m
  | Some it =>
      let s := schedulerOf t it in
      if hasScheduler t it && scheduled s then
        let m := setItem i (set_schedulerOf t (onTimeout s) it) m in
        if runner s then
          let m := emit (CallbackRun i t) m in
          match t with
          | MouseUpTimer => mouseUpCallback i m
          | ShowTimer => showCallback i m
          | HideTimer => hideCallback focusInside i m
          end
        else m
      else m
  end.

(** The listeners that [render] attaches to the element of a submenu item
    (menu.ts, 669-709). *)
Definition whenListening (i : nat) (m : Menu) (k : ViewItem -> Menu) : Menu :=
  match viewItems m !! i with
  | Some it => if isSubmenuItem it && listening it then k it else m
  | None => m
  end.

Definition onItemKeyUp (i : nat) (e : KeyboardEvent) (m : Menu) : Menu :=
  whenListening i m (fun _ =>
    if equals e RightArrow || equals e Enter then createSubmenu true i m
    else m).

Definition onItemMouseOver (i : nat) (m : Menu) : Menu :=
  whenListening i m (fun it =>
    if mouseOver it then m
    else setItem i
           (set_showScheduler (schedule (showScheduler it))
              (set_mouseOver true it)) m).

Definition onItemMouseLeave (i : nat) (m : Menu) : Menu :=
  whenListening i m (fun it => setItem i (set_mouseOver false it) m).

Definition onItemFocusOut (i : nat) (focusInside : bool) (m : Menu) : Menu :=
  whenListening i m (fun it =>
    if bool_decide (is_Some (element it)) && negb focusInside
    then setItem i (set_hideScheduler (schedule (hideScheduler it)) it) m
    else m).

Definition onParentScroll (i : nat) (m : Menu) : Menu :=
  whenListening i m (fun _ =>
    cleanupExistingSubmenu false i (focus (Some false) m)).

(** The listeners that [createSubmenu] attaches to the submenu container and
    to the [onDidCancel] event of the submenu (menu.ts, 775-798). *)
Definition whenSubmenuListening (i : nat) (m : Menu) (k : Menu) : Menu :=
  match viewItems m !! i with
  | Some it => if submenuDisposables it then k else m
  | None => m
  end.

Definition onSubmenuKeyUp (i : nat) (e : KeyboardEvent) (m : Menu) : Menu :=
  whenSubmenuListening i m
    (if equals e LeftArrow
     then cleanupExistingSubmenu true i (focus None m)
     else m).

Definition onSubmenuCancel (i : nat) (m : Menu) : Menu :=
  whenSubmenuListening i m (cleanupExistingSubmenu true i (focus None m)).

(** The deferred mouse-up listener of an item (menu.ts, 392-399). *)
Definition onItemMouseUp (i : nat) (defaultPrevented : bool) (m : Menu)
  : Menu :=
  match viewItems m !! i with
  | Some it =>
      if mouseUpListener it && negb defaultPrevented then onClick i m else m
  | None => m
  end.

(** [dispose] (menu.ts, 833-846).  The inherited part drops the element,
    detaches the listeners and disposes what was handed to [_register]: the
    mouse-up scheduler and the store of the submenu listeners. *)
Definition dispose (i : nat) (m : Menu) : Menu :=
  match viewItems m !! i with
  | None => m
  | Some it =>
      let it := set_element None it in
      let it := set_listening false (set_mouseUpListener false it) in
      let it :=
        set_runOnceToEnableMouseUp
          (RunOnceScheduler_dispose (runOnceToEnableMouseUp it)) it in
      match cls it with
      | SubmenuMenuActionViewItem =>
          let it := set_submenuDisposables false it in
          let it :=
            set_hideScheduler (RunOnceScheduler_dispose (hideScheduler it))
              it in
          let m :=
            match mysubmenu it with
            | Some sm => emit (MenuDisposed sm) m
            | None => m
            end in
          setItem i (set_submenuContainer false (set_mysubmenu None it)) m
      | _ => setItem i it m
      end
  end.

(** ** Menu (menu.ts, 64-346) *)

(** The mnemonic listener (menu.ts, 104-128), attached when
    [options.enableMnemonics] is set. *)
Definition mnemonicKeyDown (e : KeyboardEvent) (m : Menu) : Menu :=
  let k := toLocaleLowerCase (key e) in
  match mnemonics m !! k with
  | None => m
  | Some actions =>
      let m :=
        match actions with
        | [a0] =>
            let m :=
              match viewItems m !! a0 with
              | Some it =>
                  match container it with
                  | Some c =>
                      if isSubmenuItem it then focusItemByElement c m else m
                  | None => m
                  end
              | None => m
              end in
            onClick a0 m
        | _ => m
        end in
      if 1 <? length actions then
        match actions with
        | action :: rest =>
            match viewItems m !! action ≫= container with
            | Some c =>
                set_mnemonics (<[k := rest ++ [action]]> (mnemonics m))
                  (focusItemByElement c m)
            | None => set_mnemonics (<[k := rest]> (mnemonics m)) m
            end
        | [] => m
        end
      else m
  end.

(** The navigation listener (menu.ts, 132-144), attached when [isLinux]. *)
Definition linuxKeyDown (e : KeyboardEvent) (m : Menu) : Menu :=
  if equals e Home || equals e PageUp then
    focusNext
      (set_focusedItem (Some (Z.of_nat (length (viewItems m)) - 1)%Z) m)
  else if equals e End_ || equals e PageDown then
    focusPrevious (set_focusedItem (Some 0%Z) m)
  else m.

(** A key-down on the menu element runs the attached listeners in the order
    of their registration. *)
Definition onKeyDown (e : KeyboardEvent) (m : Menu) : Menu :=
  let m := if o_enableMnemonics (options m) then mnemonicKeyDown e m else m in
  if isLinux m then linuxKeyDown e m else m.

(** The mouse listeners of the menu (menu.ts, 147-174); [outside] is
    [!isAncestor(relatedTarget, this.domNode)] and [target] the child of the
    actions list under the pointer. *)
Definition onMenuMouseOut (outside : bool) (m : Menu) : Menu :=
  if outside then updateFocus (set_focusedItem None m) else m.

Definition onMenuMouseOver (target : ElemId) (m : Menu) : Menu :=
  focusItemByElement target m.

(** [trigger] (menu.ts, 247-259). *)
Definition trigger (index : Z) (m : Menu) : Menu :=
  if ((index <=? Z.of_nat (length (viewItems m)))
      && (index >=? 0))%Z
  then
    match itemAt m index with
    | Some item =>
        if isSubmenuItem item then
          open (Some true) (Z.to_nat index) (focusIndex index m)
        else if isBaseMenuItem item then
          run (_action item) (_context item) m
        else m
    | None => m
    end
  else m.

(** [doGetActionViewItem] (menu.ts, 293-345): the view of one action and the
    mnemonic index after its registration; [self] is the new item. *)
Definition registerMnemonic (self : nat) (it : ViewItem)
    (opts : IMenuOptions) (mn : gmap jsstring (list nat))
  : gmap jsstring (list nat) :=
  if o_enableMnemonics opts then
    match getMnemonic it with
    | Some (c :: s) =>
        if isEnabled it
        then <[c :: s := default [] (mn !! (c :: s)) ++ [self]]> mn
        else mn
    | _ => mn
    end
  else mn.

Definition doGetActionViewItem (self : nat) (action : IAction)
    (opts : IMenuOptions) (mn : gmap jsstring (list nat))
  : ViewItem * gmap jsstring (list nat) :=
  match a_kind action with
  | SeparatorKind =>
      (MenuSeparatorActionViewItem_new (o_context opts) action, mn)
  | SubmenuActionKind =>
      let it :=
        BaseMenuActionViewItem_new SubmenuMenuActionViewItem action
          (o_enableMnemonics opts) in
      (it, registerMnemonic self it opts mn)
  | PlainActionKind =>
      let it :=
        BaseMenuActionViewItem_new BaseMenuActionViewItem action
          (o_enableMnemonics opts) in
      (it, registerMnemonic self it opts mn)
  end.

(** Modelled from the spec: [ActionBar.push] is outside the sources;
    section 4.1 has one item view built per action, in order.  Each view is
    made by the provider, receives the context of the bar, and is rendered
    into a new child of the actions list. *)
Definition pushOne (m : Menu) (action : IAction) : Menu :=
  let self := length (viewItems m) in
  let li := length (children m) in
  let '(it, mn) := doGetActionViewItem self action (options m) (mnemonics m) in
  let it := render li (set__context (o_context (options m)) it) in
  set_children (children m ++ [li])
    (set_viewItems (viewItems m ++ [it]) (set_mnemonics mn m)).

Definition push (actions : list IAction) (m : Menu) : Menu :=
  fold_left pushOne actions m.

(** The constructor (menu.ts, 70-211) on platform [linux]. *)
Definition Menu_new (actions : list IAction) (opts : IMenuOptions)
    (linux : bool) : Menu :=
  push actions
    {| viewItems := []; focusedItem := None; mnemonics := ∅; children := [];
       options := opts; isLinux := linux; submenu := None; nextMenu := 0;
       log := [] |}.

(** ** Events *)

Inductive Event :=
| EvKeyDown (e : KeyboardEvent)
| EvMenuMouseOut (outside : bool)
| EvMenuMouseOver (target : ElemId)
| EvTrigger (index : Z)
| EvOpen (i : nat) (selectFirst : option bool)
| EvClick (i : nat)
| EvItemMouseUp (i : nat) (defaultPrevented : bool)
| EvItemKeyUp (i : nat) (e : KeyboardEvent)
| EvItemMouseOver (i : nat)
| EvItemMouseLeave (i : nat)
| EvItemFocusOut (i : nat) (focusInside : bool)
| EvParentScroll (i : nat)
| EvSubmenuKeyUp (i : nat) (e : KeyboardEvent)
| EvSubmenuCancel (i : nat)
| EvTimer (i : nat) (t : TimerName) (focusInside : bool)
| EvDispose (i : nat).

(** [item.open(..)] exists on submenu items only. *)
Definition openCall (i : nat) (selectFirst : option bool) (m : Menu) : Menu :=
  match viewItems m !! i with
  | Some it => if isSubmenuItem it then open selectFirst i m else m
  | None => m
  end.

Definition step (m : Menu) (ev : Event) : Menu :=
  match ev with
  | EvKeyDown e => onKeyDown e m
  | EvMenuMouseOut outside => onMenuMouseOut outside m
  | EvMenuMouseOver target => onMenuMouseOver target m
  | EvTrigger index => trigger index m
  | EvOpen i selectFirst => openCall i selectFirst m
  | EvClick i => onClick i m
  | EvItemMouseUp i prevented => onItemMouseUp i prevented m
  | EvItemKeyUp i e => onItemKeyUp i e m
  | EvItemMouseOver i => onItemMouseOver i m
  | EvItemMouseLeave i => onItemMouseLeave i m
  | EvItemFocusOut i focusInside => onItemFocusOut i focusInside m
  | EvParentScroll i => onParentScroll i m
  | EvSubmenuKeyUp i e => onSubmenuKeyUp i e m
  | EvSubmenuCancel i => onSubmenuCancel i m
  | EvTimer i t focusInside => timerFires i t focusInside m
  | EvDispose i => dispose i m
  end.

Definition runEvents (evs : list Event) (m : Menu) : Menu :=
  fold_left step evs m.

(** ** The history of a level *)

(** The submenus that are open after the effects of [l] (newest first):
    constructed and not disposed since. *)
Fixpoint openMenus (l : list Effect) : list MenuId :=
  match l with
  | [] => []
  | MenuConstructed sm _ :: older => sm :: openMenus older
  | MenuDisposed sm :: older => List.filter (fun x => negb (x =? sm)) (openMenus older)
  | _ :: older => openMenus older
  end.

(** The content of the slot [parentData.submenu] after the effects of [l]. *)
Fixpoint slotOf (l : list Effect) : option MenuId :=
  match l with
  | [] => None
  | SlotAssigned v :: _ => v
  | _ :: older => slotOf older
  end.

(** ** The mnemonic rule in words *)

(** The mnemonic character by the rule of section 4.2: the first character
    that is neither whitespace nor the marker and that directly follows a
    single marker, a marker that is not itself preceded by a marker.  (The
    parenthesized form is an instance: its marker follows the parenthesis.)
    [prevAmp] says that the code unit before [s] is a marker. *)
Fixpoint firstMarked (prevAmp : bool) (s : jsstring) : option ascii :=
  match s with
  | [] => None
  | c :: tl =>
      if is_amp c && negb prevAmp
         && match tl with d :: _ => notSpaceAmp d | [] => false end
      then head tl
      else firstMarked (is_amp c) tl
  end.

Definition mnemonicByRule (label : jsstring) : option jsstring :=
  (fun c => [lowerChar c]) <$> firstMarked false label.

(** [s] starts with a parenthesized mnemonic [(&X)]. *)
Definition startsParenthesized (s : jsstring) : bool :=
  match s with
  | c0 :: c1 :: c2 :: c3 :: _ =>
      is_lparen c0 && is_amp c1 && notSpaceAmp c2 && is_rparen c3
  | _ => false
  end.

(** The label without its first mnemonic occurrence, [None] when it has
    none: a parenthesized group goes as a whole, of an in-text occurrence
    only the marker goes. *)
Fixpoint stripFirst (prevAmp : bool) (s : jsstring) : option jsstring :=
  match s with
  | [] => None
  | c :: tl =>
      if startsParenthesized s then Some (drop 4 s)
      else if is_amp c && negb prevAmp
              && match tl with d :: _ => notSpaceAmp d | [] => false end
      then Some tl
      else (cons c) <$> stripFirst (is_amp c) tl
  end.

(** [cleanMnemonic] in words: the first occurrence removed and the result
    trimmed, in either form; a label without a mnemonic as it is. *)
Definition cleanByRule (label : jsstring) : jsstring :=
  match stripFirst false label with
  | Some s => trim s
  | None => label
  end.

(** The reading under which only the parenthesized form is trimmed. *)
Definition cleanTrimmingGroupOnly (label : jsstring) : jsstring :=
  match MENU_MNEMONIC_REGEX_exec label with
  | None => label
  | Some matches =>
      match m_g1 matches with
      | Some _ => trim (replaceFirst label matches [])
      | None => replaceFirst label matches (template_2_3 matches)
      end
  end.

(** ** Auxiliary views of a match *)

(** The lower-cased capture of a match. *)
Definition captureOf (o : option RegExpMatch) : option jsstring :=
  (fun m => toLocaleLowerCase (mnemonicGroup m)) <$> o.

(** The rule applied to a found character. *)
Definition ruleOf (o : option ascii) : option jsstring :=
  (fun c => [lowerChar c]) <$> o.

(** The replacement of [cleanMnemonic] before trimming, on the part of the
    label that the search started from ([idx] is where that part begins). *)
Definition replacedFrom (idx : nat) (s : jsstring) (o : option RegExpMatch)
  : option jsstring :=
  (fun m =>
     take (m_index m - idx) s
       ++ (if negb (bool_decide (is_Some (m_g1 m)))
           then template_2_3 m else [])
       ++ drop (m_index m - idx + length (m_text m)) s) <$> o.

(** ** Auxiliary notions for the proofs *)

(** The effects that do not create or dispose a submenu or write the
    slot. *)
Definition neutral (e : Effect) : bool :=
  match e with
  | MenuConstructed _ _ | SlotAssigned _ | MenuDisposed _ => false
  | _ => true
  end.

(** The events other than the pointer entering or leaving an item. *)
Definition notHover (ev : Event) : bool :=
  match ev with
  | EvItemMouseOver _ | EvItemMouseLeave _ => false
  | _ => true
  end.

(** The fields of an item view that are fixed at construction and
    rendering. *)
Definition static (it : ViewItem)
  : ItemClass * IAction * Context * option ElemId * option jsstring :=
  (cls it, _action it, _context it, container it, mnemonic it).

(** [m] has the items, the list elements, the options and the platform of
    [m0]. *)
Definition sameShape (m0 m : Menu) : Prop :=
  map static (viewItems m) = map static (viewItems m0)
  /\ children m = children m0
  /\ options m = options m0
  /\ isLinux m = isLinux m0.

(** The past instants of a history: the history itself and what it was
    before each of its effects. *)
Fixpoint instants (l : list Effect) : list (list Effect) :=
  l :: match l with [] => [] | _ :: older => instants older end.

Definition atMostOneOpen (l : list Effect) : Prop :=
  length (openMenus l) <= 1.

(** A submenu is constructed only when no submenu is open and the slot is
    empty. *)
Definition constructsOnEmptySlot (l : list Effect) : Prop :=
  match l with
  | MenuConstructed _ _ :: before =>
      openMenus before = [] /\ slotOf before = None
  | _ => True
  end.

(** The state of a level agrees with its history: the slot is what was
    last assigned, an open submenu is the one in the slot, and every past
    instant was orderly. *)
Definition historyInv (m : Menu) : Prop :=
  submenu m = slotOf (log m)
  /\ (openMenus (log m) = [] \/ Some <$> openMenus (log m) = [submenu m])
  /\ Forall (fun l => atMostOneOpen l /\ constructsOnEmptySlot l)
       (instants (log m)).

(** ** The mnemonic index in words *)

(** The action [a] is registered under the mnemonic [k]: mnemonics are
    enabled, [a] is not a separator, it is enabled and its label has the
    mnemonic [k]. *)
Definition registrable (opts : IMenuOptions) (k : jsstring) (a : IAction)
  : bool :=
  o_enableMnemonics opts
  && match a_kind a with SeparatorKind => false | _ => true end
  && a_enabled a
  && bool_decide (mnemonicByRule (a_label a) = Some k).

(** The positions, from [i] on, of the actions registered under [k], in the
    order of the actions. *)
Fixpoint registeredFrom (opts : IMenuOptions) (k : jsstring) (i : nat)
    (actions : list IAction) : list nat :=
  match actions with
  | [] => []
  | a :: tl =>
      (if registrable opts k a then [i] else [])
        ++ registeredFrom opts k (S i) tl
  end.

(** An entry of the index: absent when no item is registered. *)
Definition entryOf (l : list nat) : option (list nat) :=
  match l with [] => None | _ :: _ => Some l end.

(** The view that the constructor builds for the action at position [li]. *)
Definition viewFor (opts : IMenuOptions) (li : nat) (action : IAction)
  : ViewItem :=
  render li
    (set__context (o_context opts)
       (fst (doGetActionViewItem li action opts ∅))).

(** The first and the last focusable position of a menu. *)
Definition firstFocusable (m : Menu) : option Z :=
  List.find (isEnabledAt m) (map Z.of_nat (seq 0 (length (viewItems m)))).

Definition lastFocusable (m : Menu) : option Z :=
  List.find (isEnabledAt m)
    (reverse (map Z.of_nat (seq 0 (length (viewItems m))))).

(** The items of the index entry of [k]; empty when there is no entry. *)
Definition entry (m : Menu) (k : jsstring) : list nat :=
  default [] (mnemonics m !! k).


(** The pointer is not over item [i], as the item has recorded it. *)
Definition pointerAway (i : nat) (m : Menu) : Prop :=
  forall it, viewItems m !! i = Some it -> mouseOver it = false.

(** Every key of the mnemonic index is a single code unit. *)
Definition singleKeys (m : Menu) : Prop :=
  forall k, is_Some (mnemonics m !! k) -> length k = 1.

(** ** A sample menu *)

Definition sampleAction (id : nat) (label : string) (enabled : bool)
    (kind : ActionKind) : IAction :=
  {| a_id := id; a_label := js label; a_enabled := enabled; a_kind := kind |}.

Definition sampleOptions : IMenuOptions :=
  {| o_context := CtxValue 7; o_enableMnemonics := true |}.

(** Three enabled items and one disabled item share the mnemonic "a"; the
    items at positions 1 and 3 have submenus. *)
Definition sampleActions : list IAction :=
  [ sampleAction 10 "&Apple" true PlainActionKind;
    sampleAction 11 "&Avocado" true SubmenuActionKind;
    sampleAction 12 "" false SeparatorKind;
    sampleAction 13 "&Beet" true SubmenuActionKind;
    sampleAction 14 "&Artichoke" false PlainActionKind;
    sampleAction 15 "B&anana" true PlainActionKind ].

Definition sampleMenu : Menu := Menu_new sampleActions sampleOptions true.

Definition keyEvent (k : string) : KeyboardEvent :=
  {| key := js k; modifiers := false |}.

(** The pointer enters the submenu item at position 1, the focus leaves it,
    and the item is disposed while its timers are pending. *)
Definition disposedWhileHovered : Menu :=
  runEvents [EvItemMouseOver 1; EvItemFocusOut 1 false; EvDispose 1]
    sampleMenu.

(** The same with the submenu of the sibling at position 3 open. *)
Definition disposedBesideOpenSibling : Menu :=
  runEvents [EvItemMouseOver 1; EvOpen 3 None; EvDispose 1] sampleMenu.

(** The submenu item at position 1 of the sample menu after the pointer has
    entered it, and after its submenu was opened and the focus left it. *)
Definition hoveredItem : ViewItem :=
  Eval vm_compute in
    set_showScheduler (schedule (RunOnceScheduler_new 250))
      (set_mouseOver true
         (viewFor sampleOptions 1
            (sampleAction 11 "&Avocado" true SubmenuActionKind))).

Definition openedItem : ViewItem :=
  Eval vm_compute in
    set_hideScheduler (schedule (RunOnceScheduler_new 750))
      (set_mysubmenu (Some 0)
         (set_submenuDisposables true
            (set_submenuContainer true
               (viewFor sampleOptions 1
                  (sampleAction 11 "&Avocado" true SubmenuActionKind))))).

Definition openedMenu : Menu :=
  runEvents [EvOpen 1 None; EvItemFocusOut 1 false] sampleMenu.

(** The plain item at position 0 of the sample menu as constructed. *)
Definition appleItem : ViewItem :=
  Eval vm_compute in
    viewFor sampleOptions 0 (sampleAction 10 "&Apple" true PlainActionKind).

(** The submenu item at position 1 of the sample menu as constructed. *)
Definition avocadoItem : ViewItem :=
  Eval vm_compute in
    viewFor sampleOptions 1
      (sampleAction 11 "&Avocado" true SubmenuActionKind).

(** The submenu item at position 3 of the sample menu as constructed. *)
Definition beetItem : ViewItem :=
  Eval vm_compute in
    viewFor sampleOptions 3 (sampleAction 13 "&Beet" true SubmenuActionKind).

(** The submenu item at position 1 after its submenu was opened. *)
Definition avocadoOpenItem : ViewItem :=
  Eval vm_compute in
    set_mysubmenu (Some 0)
      (set_submenuDisposables true
         (set_submenuContainer true
            (viewFor sampleOptions 1
               (sampleAction 11 "&Avocado" true SubmenuActionKind)))).

(** The sample menu with the submenu of the item at position 1 open. *)
Definition avocadoOpenMenu : Menu := open None 1 sampleMenu.

(** ** Further notions *)

(** The class of the view that [doGetActionViewItem] makes for an action. *)
Definition classFor (a : IAction) : ItemClass :=
  match a_kind a with
  | SeparatorKind => MenuSeparatorActionViewItem
  | SubmenuActionKind => SubmenuMenuActionViewItem
  | PlainActionKind => BaseMenuActionViewItem
  end.


(** Item [i] is a submenu item whose listeners are attached. *)
Definition listeningSubmenuItem (it : ViewItem) : bool :=
  isSubmenuItem it && listening it.

(** Item [i], if there is one, has the property [Q]. *)
Definition itemHas (Q : ViewItem -> bool) (i : nat) (m : Menu) : bool :=
  match viewItems m !! i with
  | Some it => Q it
  | None => true
  end.

(** The deferred mouse-up listener of the item is not attached. *)
Definition unarmed (it : ViewItem) : bool := negb (mouseUpListener it).

(** The item is rendered and waits for its mouse-up timer: the timer is
    pending with its callback, the listener is not attached yet. *)
Definition pendingMouseUp (it : ViewItem) : bool :=
  isBaseMenuItem it && bool_decide (is_Some (element it))
  && scheduled (runOnceToEnableMouseUp it)
  && runner (runOnceToEnableMouseUp it)
  && negb (mouseUpListener it).

(** The item has recorded the pointer and its show timer is idle. *)
Definition shownOnce (it : ViewItem) : bool :=
  mouseOver it && negb (scheduled (showScheduler it)).

(** * Properties of the string functions *)

Example exec_Exit :
  MENU_MNEMONIC_REGEX_exec (js "E&xit")
  = Some {| m_index := 0; m_text := js "E&x"; m_g1 := None;
            m_g2 := Some (js "E"); m_g3 := Some "x"%char |}.
Proof. reflexivity. Qed.

Example exec_File :
  MENU_MNEMONIC_REGEX_exec (js "(&F)ile")
  = Some {| m_index := 0; m_text := js "(&F)"; m_g1 := Some "F"%char;
            m_g2 := None; m_g3 := None |}.
Proof. reflexivity. Qed.

Example exec_SaveAs : MENU_MNEMONIC_REGEX_exec (js "Save &&As") = None.
Proof. reflexivity. Qed.

Example clean_trailing : cleanMnemonic (js "File (&F)") = js "File".
Proof. reflexivity. Qed.

Example render_Exit :
  innerHTML <$> updateLabel true true (js "E&xit")
  = Some (js "E" ++ underlineOpen ++ js "x" ++ underlineClose ++ js "it").
Proof. reflexivity. Qed.

Example render_Exit_plain :
  innerHTML <$> updateLabel true false (js "E&xit") = Some (js "Exit").
Proof. reflexivity. Qed.

Example render_escaped_then_mnemonic :
  innerHTML <$> updateLabel true true (js "R&&D &Lab")
  = Some (js "R&amp;D " ++ underlineOpen ++ js "L" ++ underlineClose ++ js "ab").
Proof. reflexivity. Qed.

(** ** The regular expression against the rule in words *)

Lemma lparen_not_amp c : is_lparen c = true -> is_amp c = false.
Proof.
  unfold is_lparen, is_amp. intros H%Ascii.eqb_eq. subst c. reflexivity.
Qed.

Lemma amp_not_lparen c : is_amp c = true -> is_lparen c = false.
Proof.
  unfold is_lparen, is_amp. intros H%Ascii.eqb_eq. subst c. reflexivity.
Qed.

Lemma notSpaceAmp_not_amp c : notSpaceAmp c = true -> is_amp c = false.
Proof.
  unfold notSpaceAmp. intros [_ H]%andb_true_iff. by apply negb_true_iff.
Qed.

#[local] Arguments is_amp : simpl never.
#[local] Arguments is_lparen : simpl never.
#[local] Arguments is_rparen : simpl never.
#[local] Arguments notSpaceAmp : simpl never.
#[local] Arguments lowerChar : simpl never.

Lemma execFrom_cons bol idx c s :
  execFrom bol idx (c :: s)
  = match matchHere bol idx (c :: s) with
    | Some m => Some m
    | None => execFrom false (S idx) s
    end.
Proof. reflexivity. Qed.

Lemma firstMarked_cons prev c tl :
  firstMarked prev (c :: tl)
  = if is_amp c && negb prev
       && match tl with d :: _ => notSpaceAmp d | [] => false end
    then head tl
    else firstMarked (is_amp c) tl.
Proof. reflexivity. Qed.

(** The first alternative at the head of a string. *)
Lemma matchParen_eq idx s :
  matchParen idx s
  = if startsParenthesized s
    then Some {| m_index := idx; m_text := take 4 s;
                 m_g1 := s !! 2; m_g2 := None; m_g3 := None |}
    else None.
Proof.
  by destruct s as [|c0 [|c1 [|c2 [|c3 s]]]].
Qed.

(** The second alternative away from the start of the input. *)
Lemma matchInText_inside idx p s :
  matchInText false idx (p :: s)
  = match s with
    | c :: d :: _ =>
        if is_amp c && negb (is_amp p) && notSpaceAmp d
        then Some {| m_index := idx; m_text := [p; c; d]; m_g1 := None;
                     m_g2 := Some [p]; m_g3 := Some d |}
        else None
    | _ => None
    end.
Proof.
  destruct s as [|c [|d s]]; try reflexivity.
  unfold matchInText. cbn [andb].
  by destruct (is_amp p), (is_amp c), (notSpaceAmp d).
Qed.

(** At the start of the input the empty alternative of the second group
    applies when the label begins with a marker and a mnemonic character;
    otherwise the start behaves like any other position. *)
Lemma matchHere_start idx c s :
  matchHere true idx (c :: s)
  = if is_amp c && match s with d :: _ => notSpaceAmp d | [] => false end
    then Some {| m_index := idx; m_text := take 2 (c :: s); m_g1 := None;
                 m_g2 := Some []; m_g3 := head s |}
    else matchHere false idx (c :: s).
Proof.
  unfold matchHere. rewrite matchParen_eq.
  destruct (is_amp c) eqn:Ec; cbn [andb].
  - assert (startsParenthesized (c :: s) = false) as ->.
    { destruct s as [|? [|? [|? ?]]]; try reflexivity. cbn.
      by rewrite (amp_not_lparen _ Ec). }
    destruct s as [|d s]; [reflexivity|].
    unfold matchInText. rewrite Ec. cbn [andb negb].
    destruct (notSpaceAmp d); [reflexivity|]. by destruct s.
  - destruct (startsParenthesized (c :: s)); [reflexivity|].
    destruct s as [|d s]; [reflexivity|].
    unfold matchInText. by rewrite Ec.
Qed.

Lemma startsParenthesized_true p s :
  startsParenthesized (p :: s) = true ->
  is_amp p = false /\
  exists c d e tl, s = c :: d :: e :: tl /\ is_amp c = true
                   /\ notSpaceAmp d = true.
Proof.
  destruct s as [|c [|d [|e tl]]]; try discriminate. cbn.
  intros [[[Hp Hc]%andb_true_iff Hd]%andb_true_iff _]%andb_true_iff.
  split; [by apply lparen_not_amp|]. by exists c, d, e, tl.
Qed.

(** Away from the start of the input, the search from a position whose code
    unit is [p] finds what the rule finds after [p]. *)
Lemma capture_inside s : forall p idx,
  captureOf (execFrom false idx (p :: s)) = ruleOf (firstMarked (is_amp p) s).
Proof.
  induction s as [|c tl IH]; intros p idx; [reflexivity|].
  rewrite execFrom_cons, firstMarked_cons. specialize (IH c (S idx)).
  unfold matchHere. rewrite matchParen_eq, matchInText_inside.
  destruct (startsParenthesized (p :: c :: tl)) eqn:Hp.
  - apply startsParenthesized_true in Hp
      as (Hp & c' & d & e & tl' & [= -> ->] & Hc & Hd).
    rewrite Hp, Hc, Hd. reflexivity.
  - destruct tl as [|d tl]; [by rewrite andb_false_r|].
    destruct (is_amp c && negb (is_amp p) && notSpaceAmp d);
      [reflexivity|exact IH].
Qed.

Lemma capture_start s :
  captureOf (execFrom true 0 s) = ruleOf (firstMarked false s).
Proof.
  destruct s as [|c tl]; [reflexivity|].
  pose proof (capture_inside tl c 0) as Hin.
  rewrite execFrom_cons in *. rewrite firstMarked_cons, matchHere_start.
  cbn [negb]. rewrite andb_true_r.
  destruct (is_amp c && _) eqn:Hcaret; [|exact Hin].
  destruct tl; [by rewrite andb_false_r in Hcaret|reflexivity].
Qed.

Lemma stripFirst_cons prev c tl :
  stripFirst prev (c :: tl)
  = if startsParenthesized (c :: tl) then Some (drop 4 (c :: tl))
    else if is_amp c && negb prev
            && match tl with d :: _ => notSpaceAmp d | [] => false end
    then Some tl
    else (cons c) <$> stripFirst (is_amp c) tl.
Proof. reflexivity. Qed.

Lemma matchHere_index bol idx s m :
  matchHere bol idx s = Some m -> m_index m = idx.
Proof.
  unfold matchHere. rewrite matchParen_eq.
  destruct (startsParenthesized s); [by intros [= <-]|].
  unfold matchInText.
  repeat case_match; intros; by simplify_eq/=.
Qed.

Lemma execFrom_index_ge s : forall bol idx m,
  execFrom bol idx s = Some m -> idx <= m_index m.
Proof.
  induction s as [|c s IH]; intros bol idx m; [discriminate|].
  rewrite execFrom_cons.
  destruct (matchHere bol idx (c :: s)) eqn:Hm.
  - intros [= <-]. apply matchHere_index in Hm. lia.
  - intros H%IH. lia.
Qed.

Lemma replacedFrom_shift idx p s o :
  (forall m, o = Some m -> S idx <= m_index m) ->
  replacedFrom idx (p :: s) o = (cons p) <$> replacedFrom (S idx) s o.
Proof.
  destruct o as [m|]; [|reflexivity]. intros H. specialize (H m eq_refl).
  cbn. f_equal.
  replace (m_index m - idx) with (S (m_index m - S idx)) by lia.
  reflexivity.
Qed.

Lemma strip_inside s : forall p idx,
  replacedFrom idx (p :: s) (execFrom false idx (p :: s))
  = if startsParenthesized (p :: s) then Some (drop 4 (p :: s))
    else (cons p) <$> stripFirst (is_amp p) s.
Proof.
  induction s as [|c tl IH]; intros p idx; [reflexivity|].
  rewrite execFrom_cons, stripFirst_cons. specialize (IH c (S idx)).
  unfold matchHere. rewrite matchParen_eq, matchInText_inside.
  destruct (startsParenthesized (p :: c :: tl)) eqn:Hp.
  - apply startsParenthesized_true in Hp
      as (Hp & c' & d & e & tl' & [= -> ->] & Hc & Hd).
    cbn. by rewrite Nat.sub_diag.
  - assert (Hstep :
      replacedFrom idx (p :: c :: tl) (execFrom false (S idx) (c :: tl))
      = (cons p) <$> (if startsParenthesized (c :: tl)
                      then Some (drop 4 (c :: tl))
                      else (cons c) <$> stripFirst (is_amp c) tl)).
    { rewrite <- IH. apply replacedFrom_shift.
      intros m Hm. by apply execFrom_index_ge in Hm. }
    destruct tl as [|d tl].
    { rewrite andb_false_r. exact Hstep. }
    destruct (is_amp c && negb (is_amp p) && notSpaceAmp d) eqn:Hcond.
    + apply andb_true_iff in Hcond as [[Hc _]%andb_true_iff _].
      assert (startsParenthesized (c :: d :: tl) = false) as ->.
      { destruct tl as [|? [|? ?]]; try reflexivity. cbn.
        by rewrite (amp_not_lparen _ Hc). }
      cbn. by rewrite Nat.sub_diag.
    + rewrite Hstep. by destruct (startsParenthesized (c :: d :: tl)).
Qed.

Lemma strip_start s :
  replacedFrom 0 s (execFrom true 0 s) = stripFirst false s.
Proof.
  destruct s as [|c tl]; [reflexivity|].
  pose proof (strip_inside tl c 0) as Hin.
  rewrite execFrom_cons in *. rewrite stripFirst_cons, matchHere_start.
  cbn [negb]. rewrite andb_true_r.
  destruct (is_amp c && _) eqn:Hcaret.
  - destruct tl as [|d tl]; [by rewrite andb_false_r in Hcaret|].
    apply andb_true_iff in Hcaret as [Hc _].
    assert (startsParenthesized (c :: d :: tl) = false) as ->.
    { destruct tl as [|? [|? ?]]; try reflexivity. cbn.
      by rewrite (amp_not_lparen _ Hc). }
    reflexivity.
  - rewrite Hin. by destruct (startsParenthesized (c :: tl)).
Qed.

Lemma cleanMnemonic_by_rule label : cleanMnemonic label = cleanByRule label.
Proof.
  unfold cleanMnemonic, cleanByRule, MENU_MNEMONIC_REGEX_exec.
  rewrite <- strip_start. unfold replacedFrom, replaceFirst, substr0, substrFrom.
  destruct (execFrom true 0 label) as [m|]; [|reflexivity].
  cbn. rewrite Nat.sub_0_r.
  by destruct (negb (bool_decide (is_Some (m_g1 m)))).
Qed.

Lemma parseMnemonic_by_rule label :
  parseMnemonic true true label = mnemonicByRule label.
Proof.
  unfold parseMnemonic, mnemonicByRule, MENU_MNEMONIC_REGEX_exec.
  destruct label as [|c tl]; [reflexivity|].
  cbn [andb]. pose proof (capture_start (c :: tl)) as H.
  unfold captureOf, ruleOf in H.
  by destruct (execFrom true 0 (c :: tl)).
Qed.

(** * Mnemonic extraction and label rendering *)

(** C4.  With mnemonics enabled, the mnemonic of a constructed item is the
    one the rule of section 4.2 gives for its label, lower-cased: the first
    character that is neither whitespace nor the marker and that follows a
    single marker (the parenthesized form included).  For the label "E&xit"
    [getMnemonic] returns "x", for "(&F)ile" it returns "f". *)
Theorem C4_mnemonic_extraction :
  (forall (c : ItemClass) (action : IAction),
     getMnemonic (BaseMenuActionViewItem_new c action true)
     = mnemonicByRule (a_label action))
  /\ (forall c id en k,
        getMnemonic
          (BaseMenuActionViewItem_new c
             {| a_id := id; a_label := js "E&xit"; a_enabled := en;
                a_kind := k |} true)
        = Some (js "x"))
  /\ (forall c id en k,
        getMnemonic
          (BaseMenuActionViewItem_new c
             {| a_id := id; a_label := js "(&F)ile"; a_enabled := en;
                a_kind := k |} true)
        = Some (js "f")).
Proof.
  split; [|split].
  - intros c action. apply parseMnemonic_by_rule.
  - reflexivity.
  - reflexivity.
Qed.

(** C5, as stated, fails for the enabled half: with mnemonics enabled the
    label "Save &&As" is rendered without an underlined "A" and the item has
    no mnemonic "a". *)
Lemma C5_no_mnemonic_in_escaped_marker :
  underlines "A" <$> updateLabel true true (js "Save &&As") = Some false
  /\ getMnemonic
       (BaseMenuActionViewItem_new BaseMenuActionViewItem
          {| a_id := 0; a_label := js "Save &&As"; a_enabled := true;
             a_kind := PlainActionKind |} true)
     <> Some (js "a").
Proof. split; [reflexivity|discriminate]. Qed.

(** C5, amended.  The doubled marker of "Save &&As" is an escaped literal
    marker: with mnemonics disabled or enabled, the label is rendered as the
    literal "Save &As" with no underlined character and without a key
    shortcut, and the item has no mnemonic. *)
Theorem C5_escaped_marker_is_literal :
  forall (enableMnemonics : bool) c id en k,
    updateLabel true enableMnemonics (js "Save &&As")
    = Some {| innerHTML := js "Save &As";
              aria_label := Some (js "Save &As");
              aria_keyshortcuts := None |}
    /\ hasUnderline <$> updateLabel true enableMnemonics (js "Save &&As")
       = Some false
    /\ getMnemonic
         (BaseMenuActionViewItem_new c
            {| a_id := id; a_label := js "Save &&As"; a_enabled := en;
               a_kind := k |} enableMnemonics)
       = None.
Proof. intros [] c id en k; repeat split. Qed.

(** C10, as stated, fails: in the in-text form more than the marker is
    dropped when the label has outer whitespace, because the result is
    trimmed in this form too. *)
Lemma C10_in_text_form_is_trimmed_too :
  (m_g1 <$> MENU_MNEMONIC_REGEX_exec (js " E&xit")) = Some None
  /\ cleanTrimmingGroupOnly (js " E&xit") = js " Exit"
  /\ cleanMnemonic (js " E&xit") = js "Exit"
  /\ cleanMnemonic (js " E&xit") <> cleanTrimmingGroupOnly (js " E&xit").
Proof. repeat split. discriminate. Qed.

(** C10, amended.  [cleanMnemonic] removes only the first mnemonic
    occurrence of a label and trims the result in both forms: in the in-text
    form the marker is dropped, in the parenthesized form the whole group
    with its mnemonic character; a label without a mnemonic is returned
    unchanged (and untrimmed). *)
Theorem C10_cleanMnemonic_forms :
  (forall label, cleanMnemonic label = cleanByRule label)
  /\ cleanMnemonic (js "E&xit") = js "Exit"
  /\ cleanMnemonic (js "(&F)ile") = js "ile"
  /\ cleanMnemonic (js "&File &Edit") = js "File &Edit"
  /\ cleanMnemonic (js " Plain ") = js " Plain ".
Proof.
  split; [exact cleanMnemonic_by_rule|]. repeat split.
Qed.

(** * Invariants of the handlers *)

(** Every handler is a composition of a few primitive state changes.  A
    property of the menu that each primitive keeps is kept by every event;
    [R] bounds what a handler may do to one item view outside the three
    operations that deal with submenus. *)
Section Closure.
Variable P : Menu -> Prop.
Variable R : ViewItem -> ViewItem -> Prop.

Hypothesis R_trans : forall a b c, R a b -> R b c -> R a c.
Hypothesis R_mouseUpListener : forall it v, R it (set_mouseUpListener v it).
Hypothesis R_runOnce : forall it v, R it (set_runOnceToEnableMouseUp v it).
Hypothesis R_show : forall it v, R it (set_showScheduler v it).
Hypothesis R_hide : forall it v, R it (set_hideScheduler v it).
Hypothesis R_mouseOver : forall it v, R it (set_mouseOver v it).

Hypothesis P_emit : forall m e, neutral e = true -> P m -> P (emit e m).
Hypothesis P_focusedItem : forall m v, P m -> P (set_focusedItem v m).
Hypothesis P_mnemonics : forall m v, P m -> P (set_mnemonics v m).
Hypothesis P_setItem : forall m i it it',
  viewItems m !! i = Some it -> R it it' -> P m -> P (setItem i it' m).
Hypothesis P_cleanup : forall m force i,
  P m -> P (cleanupExistingSubmenu force i m).
Hypothesis P_create : forall m selectFirst i,
  P m -> P (createSubmenu selectFirst i m).
Hypothesis P_dispose : forall m i, P m -> P (dispose i m).

Lemma closed_updateFocus m : P m -> P (updateFocus m).
Proof. by apply P_emit. Qed.

Lemma closed_focusNext m : P m -> P (focusNext m).
Proof.
  intros H. unfold focusNext. destruct (length (viewItems m)); [done|].
  by apply closed_updateFocus, P_focusedItem.
Qed.

Lemma closed_focusPrevious m : P m -> P (focusPrevious m).
Proof.
  intros H. unfold focusPrevious. destruct (length (viewItems m)); [done|].
  by apply closed_updateFocus, P_focusedItem.
Qed.

Lemma closed_focus arg m : P m -> P (focus arg m).
Proof.
  intros H. unfold focus. case_match.
  - by apply closed_focusNext, P_focusedItem, P_emit.
  - by apply closed_updateFocus, P_emit.
Qed.

Lemma closed_focusIndex index m : P m -> P (focusIndex index m).
Proof. intros H. by apply closed_updateFocus, P_focusedItem. Qed.

Lemma closed_run action ctx m : P m -> P (run action ctx m).
Proof. by apply P_emit. Qed.

Lemma closed_focusItemByElement e m : P m -> P (focusItemByElement e m).
Proof.
  intros H. unfold focusItemByElement, setFocusedItem.
  repeat case_match; auto using closed_updateFocus.
Qed.

Lemma closed_open selectFirst i m : P m -> P (open selectFirst i m).
Proof. intros H. by apply P_create, P_cleanup. Qed.

Lemma closed_onClick i m : P m -> P (onClick i m).
Proof.
  intros H. unfold onClick, SubmenuMenuActionViewItem_onClick,
    BaseActionViewItem_onClick.
  repeat case_match; auto using closed_run.
Qed.

Lemma closed_showCallback i m : P m -> P (showCallback i m).
Proof. intros H. unfold showCallback. repeat case_match; auto. Qed.

Lemma closed_hideCallback focusInside i m :
  P m -> P (hideCallback focusInside i m).
Proof.
  intros H. unfold hideCallback.
  repeat case_match; auto using closed_focus.
Qed.

Lemma closed_mouseUpCallback i m : P m -> P (mouseUpCallback i m).
Proof. intros H. unfold mouseUpCallback. repeat case_match; eauto. Qed.

Lemma closed_timerFires i t focusInside m :
  P m -> P (timerFires i t focusInside m).
Proof.
  intros H. unfold timerFires.
  destruct (viewItems m !! i) as [it|] eqn:Hit; [|done].
  destruct (hasScheduler t it && scheduled (schedulerOf t it)); [|done].
  assert (P (setItem i (set_schedulerOf t (onTimeout (schedulerOf t it)) it) m))
    as H'.
  { eapply P_setItem; [done| |done]. destruct t; cbn; auto. }
  destruct (runner (schedulerOf t it)); [|done].
  destruct t; auto using closed_mouseUpCallback, closed_showCallback,
    closed_hideCallback.
Qed.

Lemma closed_mnemonicKeyDown e m : P m -> P (mnemonicKeyDown e m).
Proof.
  intros H. unfold mnemonicKeyDown.
  destruct (mnemonics m !! _) as [actions|]; [|done].
  set (m1 := match actions with [a0] => _ | _ => m end).
  assert (P m1) as H1.
  { subst m1. repeat case_match;
      auto using closed_onClick, closed_focusItemByElement. }
  clearbody m1.
  repeat case_match; auto using closed_focusItemByElement.
Qed.

Lemma closed_linuxKeyDown e m : P m -> P (linuxKeyDown e m).
Proof.
  intros H. unfold linuxKeyDown.
  repeat case_match; auto using closed_focusNext, closed_focusPrevious.
Qed.

Lemma closed_onKeyDown e m : P m -> P (onKeyDown e m).
Proof.
  intros H. unfold onKeyDown.
  repeat case_match;
    auto using closed_linuxKeyDown, closed_mnemonicKeyDown.
Qed.

Lemma closed_trigger index m : P m -> P (trigger index m).
Proof.
  intros H. unfold trigger.
  repeat case_match;
    auto using closed_open, closed_focusIndex, closed_run.
Qed.

(** Every event except the pointer entering or leaving an item. *)
Lemma closed_step_notHover m ev :
  notHover ev = true -> P m -> P (step m ev).
Proof.
  intros Hev H. destruct ev; try discriminate; cbn [step].
  - by apply closed_onKeyDown.
  - unfold onMenuMouseOut. case_match; auto using closed_updateFocus.
  - by apply closed_focusItemByElement.
  - by apply closed_trigger.
  - unfold openCall. repeat case_match; auto using closed_open.
  - by apply closed_onClick.
  - unfold onItemMouseUp. repeat case_match; auto using closed_onClick.
  - unfold onItemKeyUp, whenListening. repeat case_match; auto.
  - unfold onItemFocusOut, whenListening. repeat case_match; eauto.
  - unfold onParentScroll, whenListening.
    repeat case_match; auto using closed_focus.
  - unfold onSubmenuKeyUp, whenSubmenuListening.
    repeat case_match; auto using closed_focus.
  - unfold onSubmenuCancel, whenSubmenuListening.
    repeat case_match; auto using closed_focus.
  - by apply closed_timerFires.
  - by apply P_dispose.
Qed.

(** Every event, when [R] also admits the change of [mouseOver]. *)
Lemma closed_step m ev : P m -> P (step m ev).
Proof.
  intros H. destruct (notHover ev) eqn:Hev;
    [by apply closed_step_notHover|].
  destruct ev; try discriminate; cbn [step].
  - unfold onItemMouseOver, whenListening. repeat case_match; eauto.
  - unfold onItemMouseLeave, whenListening. repeat case_match; eauto.
Qed.

Lemma closed_runEvents evs : forall m, P m -> P (runEvents evs m).
Proof.
  induction evs as [|ev evs IH]; intros m H; [done|].
  apply IH, closed_step, H.
Qed.
End Closure.


(** ** The shape of a menu is fixed *)

Lemma sameShape_refl m : sameShape m m.
Proof. by repeat split. Qed.

Lemma setItem_static m i it it' :
  viewItems m !! i = Some it -> static it' = static it ->
  map static (viewItems (setItem i it' m)) = map static (viewItems m).
Proof.
  intros Hit Hs. cbn. rewrite list_fmap_insert, Hs.
  apply list_insert_id. by rewrite list_lookup_fmap, Hit.
Qed.

Lemma sameShape_setItem m0 m i it it' :
  viewItems m !! i = Some it -> static it' = static it ->
  sameShape m0 m -> sameShape m0 (setItem i it' m).
Proof.
  intros Hit Hs (H1 & H2 & H3 & H4). split; [|done].
  by rewrite (setItem_static _ _ _ _ Hit Hs).
Qed.

Lemma sameShape_cleanup m0 m force i :
  sameShape m0 m -> sameShape m0 (cleanupExistingSubmenu force i m).
Proof.
  intros H. unfold cleanupExistingSubmenu.
  destruct (viewItems m !! i) as [it|] eqn:Hit; [|done].
  repeat case_match; try done.
  eapply sameShape_setItem; [exact Hit|reflexivity|exact H].
Qed.

Lemma sameShape_create m0 m selectFirst i :
  sameShape m0 m -> sameShape m0 (createSubmenu selectFirst i m).
Proof.
  intros H. unfold createSubmenu.
  destruct (viewItems m !! i) as [it|] eqn:Hit; [|done].
  repeat case_match; try done.
  eapply sameShape_setItem; [exact Hit|reflexivity|exact H].
Qed.

Lemma sameShape_dispose m0 m i :
  sameShape m0 m -> sameShape m0 (dispose i m).
Proof.
  intros H. unfold dispose.
  destruct (viewItems m !! i) as [it|] eqn:Hit; [|done].
  repeat case_match;
    (eapply sameShape_setItem; [exact Hit|reflexivity|exact H]).
Qed.

Lemma sameShape_step m0 m ev : sameShape m0 m -> sameShape m0 (step m ev).
Proof.
  apply (closed_step (sameShape m0) (fun a b => static b = static a));
    try done; intros;
    eauto using sameShape_setItem, sameShape_cleanup, sameShape_create,
      sameShape_dispose.
  by etrans.
Qed.

Lemma sameShape_runEvents evs : forall m0 m,
  sameShape m0 m -> sameShape m0 (runEvents evs m).
Proof.
  induction evs as [|ev evs IH]; intros m0 m H; [done|].
  apply IH, sameShape_step, H.
Qed.

(** ** The history of a level is orderly *)

Lemma historyInv_same m m' :
  log m' = log m -> submenu m' = submenu m -> historyInv m -> historyInv m'.
Proof. unfold historyInv. by intros -> ->. Qed.

Lemma historyInv_emit m e :
  neutral e = true -> historyInv m -> historyInv (emit e m).
Proof.
  intros He (Hslot & Hopen & Hpast). unfold historyInv. cbn [emit set_log log submenu].
  assert (openMenus (e :: log m) = openMenus (log m)) as Ho by by destruct e.
  assert (slotOf (e :: log m) = slotOf (log m)) as Hs by by destruct e.
  rewrite Ho, Hs. split; [done|]. split; [done|].
  cbn [instants]. constructor; [|done].
  split; [|by destruct e].
  unfold atMostOneOpen. rewrite Ho.
  destruct Hopen as [->|Hopen]; [cbn; lia|].
  destruct (openMenus (log m)) as [|? [|? ?]]; cbn in *; try lia; done.
Qed.

Lemma historyInv_open_le m : historyInv m -> length (openMenus (log m)) <= 1.
Proof.
  intros (_ & [->|Hopen] & _); [cbn; lia|].
  apply (f_equal length) in Hopen. rewrite length_fmap in Hopen.
  cbn in Hopen. lia.
Qed.

Lemma historyInv_cleanup m force i :
  historyInv m -> historyInv (cleanupExistingSubmenu force i m).
Proof.
  intros H. unfold cleanupExistingSubmenu.
  destruct (viewItems m !! i) as [it|] eqn:Hit; [|done].
  destruct (submenu m) as [sm|] eqn:Hsm; [|done].
  destruct (force || negb (isMySubmenu sm it)); [|done].
  assert (historyInv
            (emit (SlotAssigned None) (set_submenu None (emit (MenuDisposed sm) m))))
    as H'.
  { destruct H as (Hslot & Hopen & Hpast).
    assert (openMenus (MenuDisposed sm :: log m) = []) as Ho.
    { cbn. destruct Hopen as [->|Hopen]; [done|].
      rewrite Hsm in Hopen.
      destruct (openMenus (log m)) as [|x [|? ?]]; simplify_eq/=.
      by rewrite Nat.eqb_refl. }
    unfold historyInv. cbn [emit set_log set_submenu log submenu slotOf].
    split; [done|]. split; [left; exact Ho|].
    cbn [instants]. constructor.
    { split; [|done]. unfold atMostOneOpen.
      change (openMenus (SlotAssigned None :: MenuDisposed sm :: log m))
        with (openMenus (MenuDisposed sm :: log m)).
      rewrite Ho. cbn; lia. }
    constructor; [|done].
    split; [|done]. unfold atMostOneOpen. rewrite Ho. cbn; lia. }
  destruct (submenuContainer it); [|done].
  by eapply historyInv_same; [| |exact H'].
Qed.

Lemma historyInv_create m selectFirst i :
  historyInv m -> historyInv (createSubmenu selectFirst i m).
Proof.
  intros H. unfold createSubmenu.
  destruct (viewItems m !! i) as [it|] eqn:Hit; [|done].
  destruct (element it); [|done].
  destruct (submenu m) as [sm|] eqn:Hsm; [by apply historyInv_emit|].
  eapply historyInv_same with
    (m := emit (SubmenuFocus (nextMenu m) selectFirst)
            (emit (SlotAssigned (Some (nextMenu m)))
               (set_submenu (Some (nextMenu m))
                  (emit (MenuConstructed (nextMenu m) i)
                     (set_nextMenu (S (nextMenu m)) m)))));
    [done|done|].
  apply historyInv_emit; [done|].
  destruct H as (Hslot & Hopen & Hpast).
  assert (openMenus (log m) = []) as Ho.
  { destruct Hopen as [->|Hopen]; [done|]. rewrite Hsm in Hopen.
    by destruct (openMenus (log m)) as [|? [|? ?]]. }
  unfold historyInv.
  cbn [emit set_log set_submenu set_nextMenu log submenu slotOf openMenus].
  rewrite Ho. split; [done|]. split; [by right|].
  cbn [instants]. constructor.
  { split; [|done]. unfold atMostOneOpen. cbn. rewrite Ho. cbn; lia. }
  constructor; [|done].
  split.
  - unfold atMostOneOpen. cbn. rewrite Ho. cbn; lia.
  - cbn. by rewrite <- Hslot.
Qed.

Lemma historyInv_dispose m i : historyInv m -> historyInv (dispose i m).
Proof.
  intros H. unfold dispose.
  destruct (viewItems m !! i) as [it|] eqn:Hit; [|done].
  assert (forall sm, historyInv (emit (MenuDisposed sm) m)) as Hd.
  { intros sm. destruct H as (Hslot & Hopen & Hpast).
    assert (openMenus (MenuDisposed sm :: log m) = []
            \/ openMenus (MenuDisposed sm :: log m) = openMenus (log m)) as Ho.
    { cbn. destruct (openMenus (log m)) as [|x [|? ?]] eqn:Hx.
      - by left.
      - cbn. destruct (x =? sm); [by left|by right].
      - destruct Hopen as [|Hopen]; simplify_eq/=. }
    unfold historyInv. cbn [emit set_log log submenu slotOf].
    split; [done|]. split.
    { destruct Ho as [->| ->]; [by left|done]. }
    cbn [instants]. constructor; [|done].
    split; [|done]. unfold atMostOneOpen.
    destruct Ho as [->| ->]; [cbn; lia|].
    destruct Hopen as [->|Hopen]; [cbn; lia|].
    apply (f_equal length) in Hopen. rewrite length_fmap in Hopen.
    cbn in Hopen. lia. }
  repeat case_match;
    first [ by eapply (historyInv_same m); [| |exact H]
          | by eapply (historyInv_same (emit (MenuDisposed _) m));
              [| |apply Hd] ].
Qed.

Lemma historyInv_step m ev : historyInv m -> historyInv (step m ev).
Proof.
  apply (closed_step historyInv (fun _ _ => True)); try done; intros;
    auto using historyInv_emit, historyInv_cleanup, historyInv_create,
      historyInv_dispose.
Qed.

Lemma historyInv_runEvents evs : forall m,
  historyInv m -> historyInv (runEvents evs m).
Proof.
  induction evs as [|ev evs IH]; intros m H; [done|].
  apply IH, historyInv_step, H.
Qed.

(** ** What the constructor builds *)

Lemma pushOne_fields m a :
  options (pushOne m a) = options m
  /\ isLinux (pushOne m a) = isLinux m
  /\ submenu (pushOne m a) = submenu m
  /\ log (pushOne m a) = log m
  /\ focusedItem (pushOne m a) = focusedItem m
  /\ viewItems (pushOne m a)
     = viewItems m ++ [viewFor (options m) (length (children m)) a]
  /\ children (pushOne m a) = children m ++ [length (children m)].
Proof.
  unfold pushOne, viewFor, doGetActionViewItem.
  by destruct (a_kind a).
Qed.

Lemma push_cons a tl m : push (a :: tl) m = push tl (pushOne m a).
Proof. reflexivity. Qed.

Lemma push_fields actions : forall m,
  options (push actions m) = options m
  /\ isLinux (push actions m) = isLinux m
  /\ submenu (push actions m) = submenu m
  /\ log (push actions m) = log m
  /\ focusedItem (push actions m) = focusedItem m.
Proof.
  induction actions as [|a tl IH]; intros m; [done|].
  rewrite push_cons. destruct (IH (pushOne m a)) as (-> & -> & -> & -> & ->).
  by destruct (pushOne_fields m a) as (-> & -> & -> & -> & -> & _).
Qed.

Lemma push_items actions : forall m,
  children m = seq 0 (length (viewItems m)) ->
  viewItems (push actions m)
  = viewItems m
      ++ imap (fun i a => viewFor (options m) (length (viewItems m) + i) a)
           actions
  /\ children (push actions m)
     = seq 0 (length (viewItems m) + length actions).
Proof.
  induction actions as [|a tl IH]; intros m Hc.
  { cbn. by rewrite app_nil_r, Nat.add_0_r. }
  rewrite push_cons.
  destruct (pushOne_fields m a) as (Ho & _ & _ & _ & _ & Hv & Hch).
  destruct (IH (pushOne m a)) as [IHv IHc].
  { rewrite Hch, Hv, length_app, Hc, length_seq. cbn.
    by rewrite seq_app. }
  rewrite IHv, IHc, Ho, Hv, length_app, Hc, length_seq. cbn [length imap].
  split; [|f_equal; lia].
  rewrite <- app_assoc. cbn. rewrite Nat.add_0_r. do 2 f_equal.
  apply imap_ext. intros i x _. cbn. f_equal. lia.
Qed.

Lemma Menu_new_items actions opts linux :
  viewItems (Menu_new actions opts linux) = imap (viewFor opts) actions
  /\ children (Menu_new actions opts linux) = seq 0 (length actions)
  /\ options (Menu_new actions opts linux) = opts
  /\ isLinux (Menu_new actions opts linux) = linux
  /\ submenu (Menu_new actions opts linux) = None
  /\ log (Menu_new actions opts linux) = []
  /\ focusedItem (Menu_new actions opts linux) = None.
Proof.
  unfold Menu_new.
  destruct (push_fields actions
    {| viewItems := []; focusedItem := None; mnemonics := ∅; children := [];
       options := opts; isLinux := linux; submenu := None; nextMenu := 0;
       log := [] |}) as (-> & -> & -> & -> & ->).
  destruct (push_items actions
    {| viewItems := []; focusedItem := None; mnemonics := ∅; children := [];
       options := opts; isLinux := linux; submenu := None; nextMenu := 0;
       log := [] |} eq_refl) as (-> & ->).
  done.
Qed.

Lemma Menu_new_length actions opts linux :
  length (viewItems (Menu_new actions opts linux)) = length actions.
Proof.
  destruct (Menu_new_items actions opts linux) as (-> & _).
  apply length_imap.
Qed.

Lemma Menu_new_lookup actions opts linux i :
  viewItems (Menu_new actions opts linux) !! i
  = viewFor opts i <$> actions !! i.
Proof.
  destruct (Menu_new_items actions opts linux) as (-> & _).
  apply list_lookup_imap.
Qed.


(** ** The mnemonic index after construction *)


Lemma mnemonicByRule_single label k :
  mnemonicByRule label = Some k -> exists c, k = [c].
Proof.
  unfold mnemonicByRule. destruct (firstMarked false label); [|done].
  intros [= <-]. eauto.
Qed.

Lemma parseMnemonic_enabled b label :
  parseMnemonic true b label = if b then mnemonicByRule label else None.
Proof. destruct b; [apply parseMnemonic_by_rule|done]. Qed.

Lemma registerMnemonic_lookup self c a opts mn k :
  c <> MenuSeparatorActionViewItem ->
  a_kind a <> SeparatorKind ->
  (forall k', mn !! k' <> Some []) ->
  let mn' := registerMnemonic self
               (BaseMenuActionViewItem_new c a (o_enableMnemonics opts))
               opts mn in
  mn' !! k
  = entryOf (default [] (mn !! k)
             ++ if registrable opts k a then [self] else [])
  /\ (forall k', mn' !! k' <> Some []).
Proof.
  intros Hc Ha Hne. cbn zeta.
  assert (Hid : mn !! k = entryOf (default [] (mn !! k) ++ [])).
  { rewrite app_nil_r. destruct (mn !! k) as [[|? ?]|] eqn:E; try done.
    by destruct (Hne k). }
  unfold registerMnemonic, registrable, getMnemonic, isEnabled.
  cbn [BaseMenuActionViewItem_new mnemonic _action].
  rewrite parseMnemonic_enabled.
  destruct (o_enableMnemonics opts); cbn [andb]; [|done].
  assert (match a_kind a with SeparatorKind => false | _ => true end = true)
    as -> by by destruct (a_kind a).
  cbn [andb].
  destruct (mnemonicByRule (a_label a)) as [k0|] eqn:Hk0;
    [|by rewrite andb_false_r].
  destruct (mnemonicByRule_single _ _ Hk0) as [ch ->].
  destruct (a_enabled a); cbn [andb]; [|done].
  split.
  - destruct (decide (k = [ch])) as [->|Hne'].
    + rewrite bool_decide_eq_true_2 by done. rewrite lookup_insert_eq.
      by destruct (default [] (mn !! [ch])).
    + rewrite bool_decide_eq_false_2 by congruence.
      by rewrite lookup_insert_ne.
  - intros k'. destruct (decide (k' = [ch])) as [->|Hne'].
    + rewrite lookup_insert_eq. by destruct (default [] (mn !! [ch])).
    + by rewrite lookup_insert_ne.
Qed.

Lemma pushOne_entry m a k :
  (forall k', mnemonics m !! k' <> Some []) ->
  mnemonics (pushOne m a) !! k
  = entryOf (entry m k
             ++ if registrable (options m) k a
                then [length (viewItems m)] else [])
  /\ (forall k', mnemonics (pushOne m a) !! k' <> Some []).
Proof.
  intros Hne. unfold pushOne, doGetActionViewItem, entry.
  destruct (a_kind a) eqn:Hka.
  - cbn. split; [|done].
    unfold registrable. rewrite Hka, andb_false_r. cbn.
    rewrite app_nil_r. destruct (mnemonics m !! k) as [[|? ?]|] eqn:E; try done.
    by destruct (Hne k).
  - cbn [mnemonics set_children set_viewItems set_mnemonics].
    apply registerMnemonic_lookup; [done|by rewrite Hka|done].
  - cbn [mnemonics set_children set_viewItems set_mnemonics].
    apply registerMnemonic_lookup; [done|by rewrite Hka|done].
Qed.

Lemma push_entry actions k : forall m,
  (forall k', mnemonics m !! k' <> Some []) ->
  mnemonics (push actions m) !! k
  = entryOf (entry m k
             ++ registeredFrom (options m) k (length (viewItems m)) actions).
Proof.
  induction actions as [|a tl IH]; intros m Hne.
  { cbn. rewrite app_nil_r. unfold entry.
    destruct (mnemonics m !! k) as [[|? ?]|] eqn:E; try done.
    by destruct (Hne k). }
  rewrite push_cons. cbn [registeredFrom].
  destruct (pushOne_entry m a k Hne) as [He Hne'].
  destruct (pushOne_fields m a) as (Ho & _ & _ & _ & _ & Hv & _).
  rewrite (IH _ Hne'), Ho, Hv.
  rewrite length_app, Nat.add_1_r. cbn [length].
  unfold entry at 1. rewrite He, app_assoc.
  by destruct (entry m k ++ _).
Qed.

Lemma Menu_new_entry actions opts linux k :
  mnemonics (Menu_new actions opts linux) !! k
  = entryOf (registeredFrom opts k 0 actions).
Proof.
  unfold Menu_new. rewrite push_entry.
  - unfold entry. cbn [mnemonics options viewItems length].
    by rewrite lookup_empty.
  - intros k'. cbn [mnemonics]. by rewrite lookup_empty.
Qed.

(** ** Mnemonic dispatch *)










Lemma registeredFrom_elem opts k actions : forall i a,
  a ∈ registeredFrom opts k i actions ->
  i <= a /\ exists act, actions !! (a - i) = Some act
                        /\ registrable opts k act = true.
Proof.
  induction actions as [|act tl IH]; intros i a; cbn [registeredFrom].
  { by intros ?%elem_of_nil. }
  intros [Hin|Hin]%elem_of_app.
  - destruct (registrable opts k act) eqn:Hr; [|by apply elem_of_nil in Hin].
    apply list_elem_of_singleton in Hin as ->. split; [lia|].
    exists act. by rewrite Nat.sub_diag.
  - apply IH in Hin as (Hle & act' & Hact & Hr). split; [lia|].
    exists act'. split; [|done].
    replace (a - i) with (S (a - S i)) by lia. done.
Qed.



Lemma sameShape_length m0 m :
  sameShape m0 m -> length (viewItems m) = length (viewItems m0).
Proof.
  intros (Hs & _). apply (f_equal length) in Hs.
  by rewrite !length_map in Hs.
Qed.



(** ** Navigation keys *)

Lemma candidates_from_last n :
  0 < n ->
  map (fun k => ((Z.of_nat n - 1 + 1 + Z.of_nat k) `mod` Z.of_nat n)%Z)
    (seq 0 n)
  = map Z.of_nat (seq 0 n).
Proof.
  intros Hn. apply map_ext_in. intros k Hk%in_seq.
  replace (Z.of_nat n - 1 + 1 + Z.of_nat k)%Z
    with (Z.of_nat k + 1 * Z.of_nat n)%Z by lia.
  rewrite Z_mod_plus_full. apply Z.mod_small. lia.
Qed.

Lemma candidates_from_first n :
  0 < n ->
  map (fun k => ((0 - 1 - Z.of_nat k) `mod` Z.of_nat n)%Z) (seq 0 n)
  = reverse (map Z.of_nat (seq 0 n)).
Proof.
  intros Hn. apply list_eq. intros i.
  destruct (decide (i < n)) as [Hi|Hi].
  - rewrite reverse_lookup by (rewrite length_map, length_seq; lia).
    rewrite !list_lookup_fmap, length_map, length_seq.
    rewrite !lookup_seq_lt by lia. cbn. f_equal.
    replace (0 - 1 - Z.of_nat i)%Z
      with (Z.of_nat (n - S i) + (-1) * Z.of_nat n)%Z by lia.
    rewrite Z_mod_plus_full. apply Z.mod_small. lia.
  - rewrite !lookup_ge_None_2; [done| |].
    + rewrite length_reverse, length_map, length_seq. lia.
    + rewrite length_map, length_seq. lia.
Qed.

Lemma focusNext_from_last m :
  viewItems m <> [] ->
  focusedItem
    (focusNext
       (set_focusedItem (Some (Z.of_nat (length (viewItems m)) - 1)%Z) m))
  = firstFocusable m.
Proof.
  intros Hne. unfold focusNext, firstFocusable.
  cbn [viewItems set_focusedItem focusedItem].
  destruct (length (viewItems m)) as [|n] eqn:Hn.
  { by destruct (viewItems m). }
  cbn [default]. unfold id. rewrite candidates_from_last by lia.
  reflexivity.
Qed.

Lemma focusPrevious_from_first m :
  viewItems m <> [] ->
  focusedItem (focusPrevious (set_focusedItem (Some 0%Z) m))
  = lastFocusable m.
Proof.
  intros Hne. unfold focusPrevious, lastFocusable.
  cbn [viewItems set_focusedItem focusedItem].
  destruct (length (viewItems m)) as [|n] eqn:Hn.
  { by destruct (viewItems m). }
  cbn [default]. unfold id. rewrite candidates_from_first by lia.
  reflexivity.
Qed.

(** The key values behind the four navigation key codes. *)
Lemma keyCodeOf_navigation k :
  (keyCodeOf k = Home -> k = js "Home")
  /\ (keyCodeOf k = PageUp -> k = js "PageUp")
  /\ (keyCodeOf k = End_ -> k = js "End")
  /\ (keyCodeOf k = PageDown -> k = js "PageDown").
Proof.
  unfold keyCodeOf. repeat case_bool_decide; by repeat split.
Qed.

Lemma equals_true e k : equals e k = true -> keyCodeOf (key e) = k.
Proof.
  unfold equals. intros [H _]%andb_true_iff.
  by destruct (keyCodeOf (key e)), k.
Qed.

(** A navigation key is no mnemonic when the index has single keys. *)
Lemma navigation_key_no_mnemonic m e :
  singleKeys m ->
  equals e Home = true \/ equals e PageUp = true
  \/ equals e End_ = true \/ equals e PageDown = true ->
  mnemonicKeyDown e m = m.
Proof.
  intros Hs He. unfold mnemonicKeyDown. cbv zeta.
  destruct (mnemonics m !! toLocaleLowerCase (key e)) eqn:Hl; [|done].
  assert (length (toLocaleLowerCase (key e)) = 1) as Hlen by by apply Hs.
  unfold toLocaleLowerCase in Hlen. rewrite length_map in Hlen.
  destruct (keyCodeOf_navigation (key e)) as (H1 & H2 & H3 & H4).
  destruct He as [He|[He|[He|He]]]; apply equals_true in He;
    [apply H1 in He|apply H2 in He|apply H3 in He|apply H4 in He];
    by rewrite He in Hlen.
Qed.

Lemma Menu_new_singleKeys actions opts linux :
  singleKeys (Menu_new actions opts linux).
Proof.
  intros k [l Hl]. rewrite Menu_new_entry in Hl.
  destruct (registeredFrom opts k 0 actions) as [|a tl] eqn:Hr; [done|].
  assert (a ∈ registeredFrom opts k 0 actions) as Ha
    by (rewrite Hr; apply list_elem_of_here).
  apply registeredFrom_elem in Ha as (_ & act & _ & Hreg).
  unfold registrable in Hreg. apply andb_true_iff in Hreg as [_ Hk].
  apply bool_decide_eq_true in Hk.
  by apply mnemonicByRule_single in Hk as [c ->].
Qed.

(** ** Items of a menu in use *)



(** ** The pointer flag of an item *)

Lemma pointerAway_same i m m' :
  viewItems m' = viewItems m -> pointerAway i m -> pointerAway i m'.
Proof. unfold pointerAway. by intros ->. Qed.

Lemma pointerAway_setItem i m j it it' :
  viewItems m !! j = Some it -> mouseOver it' = mouseOver it ->
  pointerAway i m -> pointerAway i (setItem j it' m).
Proof.
  intros Hit Hm H x. cbn.
  destruct (decide (i = j)) as [->|Hne].
  - rewrite list_lookup_insert_eq by by eapply lookup_lt_Some.
    intros [= <-]. rewrite Hm. by apply H.
  - rewrite list_lookup_insert_ne by done. apply H.
Qed.

Lemma pointerAway_cleanup i m force j :
  pointerAway i m -> pointerAway i (cleanupExistingSubmenu force j m).
Proof.
  intros H. unfold cleanupExistingSubmenu.
  destruct (viewItems m !! j) as [it|] eqn:Hit; [|done].
  repeat case_match; try done.
  eapply pointerAway_setItem; [exact Hit|reflexivity|exact H].
Qed.

Lemma pointerAway_create i m selectFirst j :
  pointerAway i m -> pointerAway i (createSubmenu selectFirst j m).
Proof.
  intros H. unfold createSubmenu.
  destruct (viewItems m !! j) as [it|] eqn:Hit; [|done].
  repeat case_match; try done.
  eapply pointerAway_setItem; [exact Hit|reflexivity|exact H].
Qed.

Lemma pointerAway_dispose i m j :
  pointerAway i m -> pointerAway i (dispose j m).
Proof.
  intros H. unfold dispose.
  destruct (viewItems m !! j) as [it|] eqn:Hit; [|done].
  repeat case_match;
    (eapply pointerAway_setItem; [exact Hit|reflexivity|exact H]).
Qed.

(** Only the pointer entering item [i] sets its flag. *)
Lemma pointerAway_step i m ev :
  ev <> EvItemMouseOver i -> pointerAway i m -> pointerAway i (step m ev).
Proof.
  intros Hev H. destruct (notHover ev) eqn:Hn.
  - revert H.
    apply (closed_step_notHover (pointerAway i)
             (fun a b => mouseOver b = mouseOver a)); try done; intros;
      eauto using pointerAway_setItem, pointerAway_cleanup,
        pointerAway_create, pointerAway_dispose.
  - destruct ev as [| | | | | | | |j|j| | | | | |]; try discriminate;
      cbn [step]; unfold onItemMouseOver, onItemMouseLeave, whenListening.
    + destruct (viewItems m !! j) as [it|] eqn:Hit; [|done].
      repeat case_match; try done.
      intros x. cbn. rewrite list_lookup_insert_ne by congruence. apply H.
    + destruct (viewItems m !! j) as [it|] eqn:Hit; [|done].
      repeat case_match; try done.
      intros x. cbn. destruct (decide (i = j)) as [->|Hne].
      * rewrite list_lookup_insert_eq by by eapply lookup_lt_Some.
        by intros [= <-].
      * rewrite list_lookup_insert_ne by done. apply H.
Qed.

Lemma pointerAway_runEvents i evs : forall m,
  Forall (fun ev => ev <> EvItemMouseOver i) evs ->
  pointerAway i m -> pointerAway i (runEvents evs m).
Proof.
  induction evs as [|ev evs IH]; intros m Hevs H; [done|].
  inversion Hevs; subst. apply IH; [done|]. by apply pointerAway_step.
Qed.

(** * The submenu life cycle, mnemonic dispatch and navigation *)

Lemma historyInv_Menu_new actions opts linux :
  historyInv (Menu_new actions opts linux).
Proof.
  destruct (Menu_new_items actions opts linux)
    as (_ & _ & _ & _ & Hs & Hl & _).
  unfold historyInv. rewrite Hs, Hl. cbn.
  repeat split; [by left|]. repeat constructor.
Qed.

Lemma lookup_setItem i it m :
  i < length (viewItems m) -> viewItems (setItem i it m) !! i = Some it.
Proof. intros H. cbn. by apply list_lookup_insert_eq. Qed.

(** Opening an item while the submenu of a sibling is in the slot. *)
Lemma open_beside_sibling m i it sm selectFirst :
  viewItems m !! i = Some it -> is_Some (element it) ->
  submenu m = Some sm -> isMySubmenu sm it = false ->
  log (open selectFirst i m)
  = SubmenuFocus (nextMenu m) (default true selectFirst)
    :: SlotAssigned (Some (nextMenu m))
    :: MenuConstructed (nextMenu m) i
    :: SlotAssigned None :: MenuDisposed sm :: log m
  /\ submenu (open selectFirst i m) = Some (nextMenu m).
Proof.
  intros Hit [el Hel] Hsm Hmine.
  assert (i < length (viewItems m)) as Hi by by eapply lookup_lt_Some.
  unfold open, cleanupExistingSubmenu. rewrite Hit, Hsm, Hmine.
  cbn [negb orb]. unfold createSubmenu.
  destruct (submenuContainer it).
  - rewrite lookup_setItem by done. cbn. by rewrite Hel.
  - cbn. by rewrite Hit, Hel.
Qed.


(** C1.  In every state that a menu reaches from its construction by any
    sequence of events (open, click, the timers, mnemonic and other keys,
    pointer and focus events, disposal of items), the history of the level
    is orderly: at every past instant at most one submenu was open, a
    submenu was constructed only when none was open and the slot was empty,
    the slot holds what was last assigned to it and an open submenu is the
    one in the slot.  Opening an item beside the open submenu of a sibling
    disposes that submenu and clears the slot before the new menu is
    constructed and stored; a click and the show timer are the same
    composition. *)
Theorem C1_at_most_one_open_submenu :
  (forall actions opts linux evs,
     let m := runEvents evs (Menu_new actions opts linux) in
     Forall (fun l => atMostOneOpen l /\ constructsOnEmptySlot l)
       (instants (log m))
     /\ submenu m = slotOf (log m)
     /\ (openMenus (log m) = [] \/ Some <$> openMenus (log m) = [submenu m]))
  /\ (forall m i it sm selectFirst,
        viewItems m !! i = Some it -> is_Some (element it) ->
        submenu m = Some sm -> isMySubmenu sm it = false ->
        log (open selectFirst i m)
        = SubmenuFocus (nextMenu m) (default true selectFirst)
          :: SlotAssigned (Some (nextMenu m))
          :: MenuConstructed (nextMenu m) i
          :: SlotAssigned None :: MenuDisposed sm :: log m
        /\ submenu (open selectFirst i m) = Some (nextMenu m))
  /\ (forall i m,
        SubmenuMenuActionViewItem_onClick i m = open (Some true) i m)
  /\ (forall i m it,
        viewItems m !! i = Some it -> mouseOver it = true ->
        showCallback i m = open (Some false) i m).
Proof.
  split; [|split; [|split]].
  - intros actions opts linux evs m.
    destruct (historyInv_runEvents evs _
                (historyInv_Menu_new actions opts linux)) as (H1 & H2 & H3).
    done.
  - intros. by eapply open_beside_sibling.
  - reflexivity.
  - intros i m it Hit Hm. unfold showCallback. by rewrite Hit, Hm.
Qed.

(** C2: the code at the failing input.  An item is disposed while its three
    timers are pending.  The hide timer and the mouse-up timer are
    cancelled: their timeouts do nothing.  The show timer is still scheduled
    and its callback runs; beside an open sibling it even disposes the
    submenu of the sibling. *)
Theorem C2_show_timer_survives_dispose :
  (scheduled <$> (showScheduler <$> viewItems disposedWhileHovered !! 1))
  = Some true
  /\ log disposedWhileHovered = []
  /\ log (step disposedWhileHovered (EvTimer 1 ShowTimer false))
     = [CallbackRun 1 ShowTimer]
  /\ step disposedWhileHovered (EvTimer 1 HideTimer false)
     = disposedWhileHovered
  /\ step disposedWhileHovered (EvTimer 1 MouseUpTimer false)
     = disposedWhileHovered
  /\ openMenus (log disposedBesideOpenSibling) = [0]
  /\ log (step disposedBesideOpenSibling (EvTimer 1 ShowTimer false))
     = SlotAssigned None :: MenuDisposed 0 :: CallbackRun 1 ShowTimer
       :: log disposedBesideOpenSibling.
Proof.
  repeat apply conj; vm_compute; reflexivity.
Qed.





Lemma C1_at_most_one_open_submenu_witness :
  log (open None 1 (runEvents [EvTrigger 3] sampleMenu))
  = [SubmenuFocus 1 true; SlotAssigned (Some 1); MenuConstructed 1 1;
     SlotAssigned None; MenuDisposed 0; SubmenuFocus 0 true;
     SlotAssigned (Some 0); MenuConstructed 0 3; FocusUpdated]
  /\ submenu (runEvents [EvTrigger 3; EvOpen 1 None] sampleMenu)
     = slotOf (log (runEvents [EvTrigger 3; EvOpen 1 None] sampleMenu)).
Proof.
  destruct C1_at_most_one_open_submenu as (Hinv & Hopen & _).
  split.
  - destruct (Hopen (runEvents [EvTrigger 3] sampleMenu) 1
                (viewFor sampleOptions 1
                   (sampleAction 11 "&Avocado" true SubmenuActionKind))
                0 None) as [Hl _];
      [reflexivity|by exists 1|reflexivity|reflexivity|exact Hl].
  - exact (proj1 (proj2 (Hinv sampleActions sampleOptions true
                           [EvTrigger 3; EvOpen 1 None]))).
Defined.

(** C7.  On Linux, in a menu with items whose mnemonic keys are single code
    units (as the constructor makes them), a Home or PageUp key-down sets
    the focused index to the last position and calls [focusNext], which
    selects the first focusable item; an End or PageDown key-down sets the
    focused index to 0 and calls [focusPrevious], which selects the last
    focusable item. *)
Theorem C7_linux_navigation :
  forall m e,
    isLinux m = true -> viewItems m <> [] -> singleKeys m ->
    (equals e Home = true \/ equals e PageUp = true ->
     onKeyDown e m
     = focusNext
         (set_focusedItem
            (Some (Z.of_nat (length (viewItems m)) - 1)%Z) m)
     /\ focusedItem (onKeyDown e m) = firstFocusable m)
    /\ (equals e End_ = true \/ equals e PageDown = true ->
        onKeyDown e m = focusPrevious (set_focusedItem (Some 0%Z) m)
        /\ focusedItem (onKeyDown e m) = lastFocusable m).
Proof.
  intros m e Hlin Hne Hkeys.
  assert (Hpre : equals e Home = true \/ equals e PageUp = true
                 \/ equals e End_ = true \/ equals e PageDown = true ->
                 onKeyDown e m = linuxKeyDown e m).
  { intros He. unfold onKeyDown.
    rewrite (navigation_key_no_mnemonic m e Hkeys He).
    destruct (o_enableMnemonics (options m)); by rewrite Hlin. }
  split.
  - intros He. rewrite Hpre by tauto.
    assert (linuxKeyDown e m
            = focusNext
                (set_focusedItem
                   (Some (Z.of_nat (length (viewItems m)) - 1)%Z) m)) as ->.
    { unfold linuxKeyDown. by destruct He as [-> | ->]; rewrite ?orb_true_r. }
    split; [done|]. by apply focusNext_from_last.
  - intros He. rewrite Hpre by tauto.
    assert (linuxKeyDown e m = focusPrevious (set_focusedItem (Some 0%Z) m))
      as ->.
    { unfold linuxKeyDown.
      assert (equals e Home || equals e PageUp = false) as ->.
      { unfold equals in *.
        destruct He as [He|He]; apply andb_true_iff in He as [He _];
          by destruct (keyCodeOf (key e)). }
      by destruct He as [-> | ->]; rewrite ?orb_true_r. }
    split; [done|]. by apply focusPrevious_from_first.
Qed.

Lemma C7_linux_navigation_witness :
  focusedItem (onKeyDown (keyEvent "Home") sampleMenu) = Some 0%Z
  /\ focusedItem (onKeyDown (keyEvent "PageDown") sampleMenu) = Some 5%Z.
Proof.
  destruct (C7_linux_navigation sampleMenu (keyEvent "Home"))
    as [[_ Hhome] _]; [reflexivity|discriminate|
                       apply Menu_new_singleKeys|by left|].
  destruct (C7_linux_navigation sampleMenu (keyEvent "PageDown"))
    as [_ [_ Hend]]; [reflexivity|discriminate|
                      apply Menu_new_singleKeys|by right|].
  split; [exact Hhome|exact Hend].
Defined.

(** The show timer of an item that has recorded no pointer. *)
Lemma show_timer_pointer_away m i focusInside :
  pointerAway i m ->
  submenu (step m (EvTimer i ShowTimer focusInside)) = submenu m
  /\ (log (step m (EvTimer i ShowTimer focusInside)) = log m
      \/ log (step m (EvTimer i ShowTimer focusInside))
         = CallbackRun i ShowTimer :: log m).
Proof.
  intros Haway. cbn [step]. unfold timerFires.
  destruct (viewItems m !! i) as [it|] eqn:Hit; [|by split; [|left]].
  assert (i < length (viewItems m)) as Hi by by eapply lookup_lt_Some.
  destruct (hasScheduler ShowTimer it && scheduled (schedulerOf ShowTimer it));
    [|by split; [|left]].
  destruct (runner (schedulerOf ShowTimer it)); [|by split; [|left]].
  unfold showCallback.
  cbn [emit set_log viewItems]. rewrite lookup_setItem by done.
  cbn [set_schedulerOf set_showScheduler mouseOver].
  rewrite (Haway it Hit). by split; [|right].
Qed.

(** C8.  When the show timer of an item fires while the item has recorded
    no pointer, nothing is opened: the slot is unchanged and the history
    gains at most the record of the callback.  Hence, when the pointer
    enters an item and then leaves it while the item still listens, and
    the pointer does not enter again, the show timer opens nothing,
    whatever else happens in between. *)
Theorem C8_show_timer_needs_pointer :
  (forall m i it focusInside,
     viewItems m !! i = Some it -> mouseOver it = false ->
     let m' := step m (EvTimer i ShowTimer focusInside) in
     submenu m' = submenu m
     /\ (log m' = log m \/ log m' = CallbackRun i ShowTimer :: log m))
  /\ (forall m0 i mid1 mid2 focusInside it,
        let m1 := runEvents mid1 (step m0 (EvItemMouseOver i)) in
        viewItems m1 !! i = Some it ->
        isSubmenuItem it = true -> listening it = true ->
        Forall (fun ev => ev <> EvItemMouseOver i) mid2 ->
        let m2 := runEvents mid2 (step m1 (EvItemMouseLeave i)) in
        let m3 := step m2 (EvTimer i ShowTimer focusInside) in
        submenu m3 = submenu m2
        /\ (log m3 = log m2 \/ log m3 = CallbackRun i ShowTimer :: log m2)).
Proof.
  split.
  - intros m i it focusInside Hit Hm m'.
    apply show_timer_pointer_away. intros it' Hit'. congruence.
  - intros m0 i mid1 mid2 focusInside it m1 Hit Hsub Hlis Hmid m2 m3.
    apply show_timer_pointer_away.
    apply pointerAway_runEvents; [done|].
    cbn [step]. unfold onItemMouseLeave, whenListening.
    rewrite Hit, Hsub, Hlis. cbn [andb].
    intros x. rewrite lookup_setItem by by eapply lookup_lt_Some.
    by intros [= <-].
Qed.

Lemma C8_show_timer_needs_pointer_witness :
  let m1 := runEvents [] (step sampleMenu (EvItemMouseOver 1)) in
  let m2 :=
    runEvents [EvItemFocusOut 1 false] (step m1 (EvItemMouseLeave 1)) in
  let m3 := step m2 (EvTimer 1 ShowTimer false) in
  submenu m3 = submenu m2
  /\ (log m3 = log m2 \/ log m3 = CallbackRun 1 ShowTimer :: log m2).
Proof.
  apply (proj2 C8_show_timer_needs_pointer sampleMenu 1 []
           [EvItemFocusOut 1 false] false hoveredItem);
    [reflexivity|reflexivity|reflexivity|].
  repeat constructor; discriminate.
Defined.

(** Closing by force: the submenu in the slot is disposed and the slot
    cleared. *)
Lemma cleanup_forced m i it sm :
  viewItems m !! i = Some it -> submenu m = Some sm ->
  log (cleanupExistingSubmenu true i m)
  = SlotAssigned None :: MenuDisposed sm :: log m
  /\ submenu (cleanupExistingSubmenu true i m) = None.
Proof.
  intros Hit Hsm. unfold cleanupExistingSubmenu. rewrite Hit, Hsm.
  cbn [orb]. by destruct (submenuContainer it).
Qed.

(** The hide timer of a submenu item that is pending with its callback
    attached: the scheduler becomes idle and the callback runs. *)
Lemma timerFires_hide m i it focusInside :
  viewItems m !! i = Some it -> isSubmenuItem it = true ->
  scheduled (hideScheduler it) = true -> runner (hideScheduler it) = true ->
  timerFires i HideTimer focusInside m
  = hideCallback focusInside i
      (emit (CallbackRun i HideTimer)
         (setItem i (set_hideScheduler (onTimeout (hideScheduler it)) it) m)).
Proof.
  intros Hit Hsub Hsch Hrun. unfold timerFires. rewrite Hit.
  cbn [hasScheduler schedulerOf set_schedulerOf].
  by rewrite Hsub, Hsch, Hrun.
Qed.

(** C9.  The hide timer of a submenu item fires while a submenu is in the
    slot.  The submenu is closed exactly when the item has its element, the
    focus is not inside it and the submenu in the slot is the item's own;
    then the parent menu is focused first, the submenu is disposed next and
    the slot is cleared last.  Otherwise the slot keeps its submenu and
    nothing but the callback is recorded. *)
Theorem C9_hide_timer :
  forall m i it focusInside sm,
    viewItems m !! i = Some it -> isSubmenuItem it = true ->
    scheduled (hideScheduler it) = true -> runner (hideScheduler it) = true ->
    submenu m = Some sm ->
    let m' := step m (EvTimer i HideTimer focusInside) in
    (submenu m' = None
     <-> is_Some (element it) /\ focusInside = false
         /\ mysubmenu it = Some sm)
    /\ (submenu m' = None ->
        log m'
        = SlotAssigned None :: MenuDisposed sm :: FocusUpdated
          :: FocusCalled (Some false) :: CallbackRun i HideTimer :: log m)
    /\ (submenu m' <> None ->
        submenu m' = Some sm /\ log m' = CallbackRun i HideTimer :: log m).
Proof.
  intros m i it focusInside sm Hit Hsub Hsch Hrun Hsm m'.
  assert (i < length (viewItems m)) as Hi by by eapply lookup_lt_Some.
  subst m'. cbn [step]. rewrite (timerFires_hide m i it) by done.
  set (it1 := set_hideScheduler (onTimeout (hideScheduler it)) it).
  set (m1 := emit (CallbackRun i HideTimer) (setItem i it1 m)).
  assert (viewItems m1 !! i = Some it1) as Hit1 by by apply lookup_setItem.
  assert (submenu m1 = Some sm) as Hsm1 by done.
  unfold hideCallback. rewrite Hit1, Hsm1.
  change (element it1) with (element it).
  assert (isMySubmenu sm it1
          = bool_decide (mysubmenu it = Some sm)) as ->.
  { unfold isMySubmenu. change (mysubmenu it1) with (mysubmenu it).
    destruct (mysubmenu it) as [mine|]; [|done].
    destruct (Nat.eqb_spec sm mine) as [->|Hne].
    - by rewrite bool_decide_eq_true_2.
    - rewrite bool_decide_eq_false_2; [done|]. congruence. }
  destruct (bool_decide (is_Some (element it)) && negb focusInside
            && bool_decide (mysubmenu it = Some sm)) eqn:Hc.
  - apply andb_true_iff in Hc as [[He Hf]%andb_true_iff Hm].
    apply bool_decide_eq_true in He, Hm. apply negb_true_iff in Hf.
    destruct (cleanup_forced (focus (Some false) m1) i it1 sm) as [Hl Hs];
      [done|done|].
    rewrite Hs, Hl. split; [done|]. split; [done|]. by intros [].
  - rewrite Hsm1. split.
    + split; [done|]. intros (He & Hf & Hm).
      rewrite bool_decide_eq_true_2 in Hc by done. subst focusInside.
      by rewrite bool_decide_eq_true_2 in Hc.
    + split; [done|]. by intros _.
Qed.

Lemma C9_hide_timer_witness :
  let m' := step openedMenu (EvTimer 1 HideTimer false) in
  (submenu m' = None
   <-> is_Some (element openedItem) /\ false = false
       /\ mysubmenu openedItem = Some 0)
  /\ (submenu m' = None ->
      log m'
      = SlotAssigned None :: MenuDisposed 0 :: FocusUpdated
        :: FocusCalled (Some false) :: CallbackRun 1 HideTimer
        :: log openedMenu)
  /\ (submenu m' <> None ->
      submenu m' = Some 0
      /\ log m' = CallbackRun 1 HideTimer :: log openedMenu).
Proof.
  apply (C9_hide_timer openedMenu 1 openedItem false 0); reflexivity.
Defined.

(** * Further properties of the label functions *)

Lemma is_amp_true c : is_amp c = true -> c = amp.
Proof. unfold is_amp. by intros ?%Ascii.eqb_eq. Qed.

Lemma trimStart_length s : length (trimStart s) <= length s.
Proof.
  induction s as [|c s IH]; [done|]. cbn.
  destruct (isWhiteSpace c); cbn; lia.
Qed.

Lemma trim_length s : length (trim s) <= length s.
Proof.
  unfold trim. rewrite length_rev.
  etrans; [apply trimStart_length|]. rewrite length_rev.
  apply trimStart_length.
Qed.

Lemma stripFirst_length s : forall prev s',
  stripFirst prev s = Some s' -> length s' < length s.
Proof.
  induction s as [|c tl IH]; intros prev s'; [done|].
  rewrite stripFirst_cons.
  destruct (startsParenthesized (c :: tl)) eqn:Hp.
  - intros [= <-].
    destruct tl as [|? [|? [|? ?]]]; cbn in Hp; try discriminate Hp.
    rewrite length_drop. cbn [length]. lia.
  - destruct (is_amp c && negb prev && _).
    + intros [= <-]. cbn. lia.
    + destruct (stripFirst (is_amp c) tl) as [r|] eqn:Hr; [|done].
      intros [= <-]. apply IH in Hr. cbn. lia.
Qed.

Lemma exec_None_strip label :
  MENU_MNEMONIC_REGEX_exec label = None <-> stripFirst false label = None.
Proof.
  rewrite <- strip_start. unfold MENU_MNEMONIC_REGEX_exec, replacedFrom.
  by destruct (execFrom true 0 label).
Qed.

Lemma exec_None_rule label :
  MENU_MNEMONIC_REGEX_exec label = None <-> firstMarked false label = None.
Proof.
  pose proof (capture_start label) as H.
  unfold MENU_MNEMONIC_REGEX_exec, captureOf, ruleOf in *.
  destruct (execFrom true 0 label), (firstMarked false label); naive_solver.
Qed.

(** X1.  The labels that [cleanMnemonic] returns unchanged are exactly the
    labels without a mnemonic; a label with a mnemonic comes back strictly
    shorter. *)
Theorem X1_cleanMnemonic_fixed_points :
  forall label,
    match MENU_MNEMONIC_REGEX_exec label with
    | None => cleanMnemonic label = label
    | Some _ =>
        length (cleanMnemonic label) < length label
        /\ cleanMnemonic label <> label
    end.
Proof.
  intros label. rewrite cleanMnemonic_by_rule. unfold cleanByRule.
  destruct (MENU_MNEMONIC_REGEX_exec label) as [m|] eqn:He.
  - destruct (stripFirst false label) as [s|] eqn:Hs.
    + apply stripFirst_length in Hs.
      pose proof (trim_length s) as Ht.
      split; [lia|]. intros Heq. rewrite Heq in Ht. lia.
    + apply exec_None_strip in Hs. congruence.
  - apply exec_None_strip in He. by rewrite He.
Qed.



Lemma firstMarked_no_marker s : forall prev,
  amp ∉ s -> firstMarked prev s = None.
Proof.
  induction s as [|x tl IH]; intros prev Hs; [done|].
  rewrite firstMarked_cons.
  apply not_elem_of_cons in Hs as [Hx Htl].
  assert (is_amp x = false) as ->.
  { destruct (is_amp x) eqn:E; [|done]. apply is_amp_true in E.
    congruence. }
  cbn [andb]. by apply IH.
Qed.

Lemma replaceAll_no_marker rep s :
  amp ∉ s -> replaceAll (js "&&") rep s = s.
Proof.
  unfold replaceAll. induction s as [|x tl IH]; intros Hs; [done|].
  apply not_elem_of_cons in Hs as [Hx Htl]. cbn [replaceAllFrom].
  assert (startsWith (js "&&") (x :: tl) = false) as ->.
  { change (startsWith (js "&&") (x :: tl))
      with (Ascii.eqb amp x && startsWith [amp] tl).
    destruct (Ascii.eqb amp x) eqn:E; [|done].
    apply Ascii.eqb_eq in E. by destruct Hx. }
  cbn [andb]. by rewrite IH.
Qed.

(** X3.  A label without a marker passes through: the item has no
    mnemonic, [cleanMnemonic] returns the label, and [updateLabel] renders
    the trimmed label, with the label as accessible name and without a key
    shortcut, whether mnemonics are enabled or not. *)
Theorem X3_label_without_marker :
  forall (enableMnemonics : bool) c s,
    amp ∉ c :: s ->
    parseMnemonic true enableMnemonics (c :: s) = None
    /\ cleanMnemonic (c :: s) = c :: s
    /\ updateLabel true enableMnemonics (c :: s)
       = Some {| innerHTML := trim (c :: s);
                 aria_label := Some (c :: s);
                 aria_keyshortcuts := None |}.
Proof.
  intros enableMnemonics c s Hs.
  assert (He : MENU_MNEMONIC_REGEX_exec (c :: s) = None).
  { apply exec_None_rule. by apply firstMarked_no_marker. }
  assert (Hc : cleanMnemonic (c :: s) = c :: s).
  { unfold cleanMnemonic. by rewrite He. }
  split; [|split; [done|]].
  - unfold parseMnemonic. rewrite He. by destruct enableMnemonics.
  - unfold updateLabel. rewrite Hc.
    assert ((if negb enableMnemonics then c :: s else c :: s) = c :: s) as ->
      by by destruct enableMnemonics.
    rewrite He. by rewrite replaceAll_no_marker.
Qed.

Lemma X3_label_without_marker_witness :
  updateLabel true true (js " Open File ")
  = Some {| innerHTML := trim (js " Open File ");
            aria_label := Some (js " Open File ");
            aria_keyshortcuts := None |}.
Proof.
  apply (X3_label_without_marker true " "%char (js "Open File ")).
  intros H. repeat (apply elem_of_cons in H as [H|H]; [discriminate H|]).
  by apply elem_of_nil in H.
Defined.

(** X4.  The key shortcut that [updateLabel] writes is the mnemonic of the
    label it renders: with mnemonics enabled the mnemonic of the label, as
    the constructor parsed it; with mnemonics disabled the mnemonic of the
    cleaned label, so that a second marker of a label still shows. *)
Theorem X4_key_shortcut_of_rendered_label :
  forall c s,
    aria_keyshortcuts <$> updateLabel true true (c :: s)
    = Some (parseMnemonic true true (c :: s))
    /\ aria_keyshortcuts <$> updateLabel true false (c :: s)
       = Some (parseMnemonic true true (cleanMnemonic (c :: s)))
    /\ aria_keyshortcuts <$> updateLabel true false (js "&File &Edit")
       = Some (Some (js "e")).
Proof.
  intros c s. split; [|split; [|reflexivity]].
  - unfold updateLabel, parseMnemonic. cbn [negb andb].
    by destruct (MENU_MNEMONIC_REGEX_exec (c :: s)).
  - unfold updateLabel. cbn [negb].
    assert (parseMnemonic true true (cleanMnemonic (c :: s))
            = (fun m => toLocaleLowerCase (mnemonicGroup m))
                <$> MENU_MNEMONIC_REGEX_exec (cleanMnemonic (c :: s))) as ->.
    { unfold parseMnemonic. cbn [andb].
      by destruct (cleanMnemonic (c :: s)). }
    by destruct (MENU_MNEMONIC_REGEX_exec (cleanMnemonic (c :: s))).
Qed.

(** * Further properties of the menu *)

(** X5.  The constructor makes one view per action, in the order of the
    actions, rendered into the list element of its position, with the
    context of the menu and the class of its action; a view other than a
    separator has that element as its container, the mnemonic of its label,
    its mouse-up timer armed and no mouse-up listener yet, no submenu and no
    pointer.  Nothing is focused, the slot is empty and nothing has
    happened. *)
Theorem X5_constructor_views :
  forall actions opts linux,
    let m := Menu_new actions opts linux in
    length (viewItems m) = length actions
    /\ children m = seq 0 (length actions)
    /\ focusedItem m = None /\ submenu m = None /\ log m = []
    /\ forall i,
         match actions !! i, viewItems m !! i with
         | Some a, Some it =>
             _action it = a /\ _context it = o_context opts
             /\ element it = Some i /\ cls it = classFor a
             /\ match a_kind a with
                | SeparatorKind => True
                | _ =>
                    container it = Some i /\ listening it = true
                    /\ mnemonic it
                       = parseMnemonic true (o_enableMnemonics opts)
                           (a_label a)
                    /\ runOnceToEnableMouseUp it
                       = schedule (RunOnceScheduler_new 100)
                    /\ mouseUpListener it = false
                    /\ mysubmenu it = None /\ mouseOver it = false
                    /\ scheduled (showScheduler it) = false
                    /\ scheduled (hideScheduler it) = false
                end
         | None, None => True
         | _, _ => False
         end.
Proof.
  intros actions opts linux m.
  destruct (Menu_new_items actions opts linux)
    as (Hv & Hc & _ & _ & Hs & Hl & Hf).
  split; [apply Menu_new_length|]. repeat (split; [done|]).
  intros i. subst m. rewrite Menu_new_lookup.
  destruct (actions !! i) as [a|]; [|done]. cbn.
  unfold viewFor, doGetActionViewItem, classFor.
  by destruct (a_kind a).
Qed.



(** ** The mnemonic index of a menu in use *)





Section KeepsIndex.
Variable mn : gmap jsstring (list nat).

Let P (m : Menu) : Prop := mnemonics m = mn.










End KeepsIndex.









(** ** Dispatch of a mnemonic with one item or none *)





(** ** The ways to open a submenu when the slot is taken *)

(** X9.  When the submenu of an item is already in the slot, opening the
    item again by [open], by a click or by the show timer constructs and
    disposes nothing: the submenu is focused without first-item selection,
    whatever selection was asked for. *)
Theorem X9_reopening_refocuses :
  forall m i it sm selectFirst,
    viewItems m !! i = Some it -> is_Some (element it) ->
    submenu m = Some sm -> mysubmenu it = Some sm ->
    open selectFirst i m = emit (SubmenuFocus sm false) m
    /\ SubmenuMenuActionViewItem_onClick i m = emit (SubmenuFocus sm false) m
    /\ (mouseOver it = true ->
        showCallback i m = emit (SubmenuFocus sm false) m).
Proof.
  intros m i it sm selectFirst Hit [el Hel] Hsm Hmine.
  assert (Hopen : forall b,
            createSubmenu b i (cleanupExistingSubmenu false i m)
            = emit (SubmenuFocus sm false) m).
  { intros b. unfold cleanupExistingSubmenu, isMySubmenu.
    rewrite Hit, Hsm, Hmine, Nat.eqb_refl. cbn [negb orb].
    unfold createSubmenu. by rewrite Hit, Hel, Hsm. }
  split; [apply Hopen|]. split; [apply Hopen|].
  intros Hover. unfold showCallback. rewrite Hit, Hover. apply Hopen.
Qed.

Lemma X9_reopening_refocuses_witness :
  open (Some true) 1 avocadoOpenMenu
  = emit (SubmenuFocus 0 false) avocadoOpenMenu.
Proof.
  exact (proj1 (X9_reopening_refocuses avocadoOpenMenu 1 avocadoOpenItem 0
                  (Some true) eq_refl (ex_intro _ 1 eq_refl) eq_refl
                  eq_refl)).
Defined.

(** X10.  A key-up of the right arrow or of Enter on a submenu item does
    not clean the slot up first: with the slot empty it constructs the
    submenu of the item and focuses it with first-item selection; with any
    submenu in the slot, also that of a sibling, it only focuses that
    submenu.  Any other key-up changes nothing. *)
Theorem X10_key_up_on_submenu_item :
  forall m i it e,
    viewItems m !! i = Some it -> listeningSubmenuItem it = true ->
    is_Some (element it) ->
    (equals e RightArrow || equals e Enter = false -> onItemKeyUp i e m = m)
    /\ (equals e RightArrow || equals e Enter = true ->
        match submenu m with
        | Some sm => onItemKeyUp i e m = emit (SubmenuFocus sm false) m
        | None =>
            submenu (onItemKeyUp i e m) = Some (nextMenu m)
            /\ log (onItemKeyUp i e m)
               = SubmenuFocus (nextMenu m) true
                 :: SlotAssigned (Some (nextMenu m))
                 :: MenuConstructed (nextMenu m) i :: log m
        end).
Proof.
  intros m i it e Hit Hlis [el Hel].
  unfold onItemKeyUp, whenListening. rewrite Hit.
  unfold listeningSubmenuItem in Hlis. rewrite Hlis.
  split; intros ->; [done|].
  unfold createSubmenu. rewrite Hit, Hel.
  by destruct (submenu m).
Qed.

Lemma X10_key_up_on_submenu_item_witness :
  onItemKeyUp 3 (keyEvent "ArrowRight") avocadoOpenMenu
  = emit (SubmenuFocus 0 false) avocadoOpenMenu.
Proof.
  exact (proj2 (X10_key_up_on_submenu_item avocadoOpenMenu 3 beetItem
                  (keyEvent "ArrowRight") eq_refl eq_refl
                  (ex_intro _ 3 eq_refl)) eq_refl).
Defined.

(** ** Closing a submenu *)

Lemma focus_false m :
  focus (Some false) m = emit FocusUpdated (emit (FocusCalled (Some false)) m).
Proof. reflexivity. Qed.


(** X11.  The scroll listener of a submenu item focuses the parent menu and
    then closes the submenu in the slot only if it is not the item's own:
    the listener of the owner leaves its submenu open, the listener of any
    other submenu item disposes it and clears the slot. *)
Theorem X11_scroll_closes_foreign_submenu :
  forall m i it sm,
    viewItems m !! i = Some it -> listeningSubmenuItem it = true ->
    submenu m = Some sm ->
    if isMySubmenu sm it
    then onParentScroll i m = focus (Some false) m
         /\ submenu (onParentScroll i m) = Some sm
    else submenu (onParentScroll i m) = None
         /\ log (onParentScroll i m)
            = SlotAssigned None :: MenuDisposed sm :: FocusUpdated
              :: FocusCalled (Some false) :: log m.
Proof.
  intros m i it sm Hit Hlis Hsm.
  unfold onParentScroll, whenListening. rewrite Hit.
  unfold listeningSubmenuItem in Hlis. rewrite Hlis.
  rewrite focus_false. unfold cleanupExistingSubmenu.
  cbn [viewItems submenu emit set_log]. rewrite Hit, Hsm.
  destruct (isMySubmenu sm it); cbn [negb orb]; [done|].
  by destruct (submenuContainer it).
Qed.

Lemma X11_scroll_closes_foreign_submenu_witness :
  submenu (onParentScroll 3 avocadoOpenMenu) = None
  /\ log (onParentScroll 3 avocadoOpenMenu)
     = SlotAssigned None :: MenuDisposed 0 :: FocusUpdated
       :: FocusCalled (Some false) :: log avocadoOpenMenu.
Proof.
  exact (X11_scroll_closes_foreign_submenu avocadoOpenMenu 3 beetItem 0
           eq_refl eq_refl eq_refl).
Defined.



(** ** Disposal of an item *)

(** The handlers of item [i] that [dispose] detaches, and the two timers it
    disposes, on a state where the item has no element, no listener and
    idle timers without callback. *)
Lemma inert_item m i it :
  viewItems m !! i = Some it ->
  element it = None -> listening it = false -> mouseUpListener it = false ->
  submenuDisposables it = false ->
  scheduled (runOnceToEnableMouseUp it) = false ->
  scheduled (hideScheduler it) = false ->
  (forall prevented, onItemMouseUp i prevented m = m)
  /\ (forall e, onItemKeyUp i e m = m)
  /\ onItemMouseOver i m = m
  /\ onItemMouseLeave i m = m
  /\ (forall focusInside, onItemFocusOut i focusInside m = m)
  /\ onParentScroll i m = m
  /\ (forall e, onSubmenuKeyUp i e m = m)
  /\ onSubmenuCancel i m = m
  /\ (forall focusInside, timerFires i MouseUpTimer focusInside m = m)
  /\ (forall focusInside, timerFires i HideTimer focusInside m = m)
  /\ (forall selectFirst, createSubmenu selectFirst i m = m).
Proof.
  intros Hit Hel Hlis Hup Hsd Hro Hhide.
  unfold onItemMouseUp, onItemKeyUp, onItemMouseOver, onItemMouseLeave,
    onItemFocusOut, onParentScroll, whenListening, onSubmenuKeyUp,
    onSubmenuCancel, whenSubmenuListening, timerFires, createSubmenu.
  rewrite Hit, Hel, Hlis, Hup, Hsd. cbn [schedulerOf].
  rewrite Hro, Hhide, !andb_false_r. done.
Qed.

(** X13.  [dispose] of a submenu item disposes the submenu the item owns
    and nothing else; it does not write the slot and does not touch the
    show timer.  Afterwards the item reacts to none of its listeners, its
    mouse-up timer and its hide timer do nothing when they elapse, and
    [createSubmenu] on it does nothing. *)
Theorem X13_disposed_item_is_inert :
  forall m i it,
    viewItems m !! i = Some it -> isSubmenuItem it = true ->
    let m' := dispose i m in
    submenu m' = submenu m
    /\ log m'
       = match mysubmenu it with
         | Some sm => MenuDisposed sm :: log m
         | None => log m
         end
    /\ (showScheduler <$> viewItems m' !! i) = Some (showScheduler it)
    /\ (forall prevented, onItemMouseUp i prevented m' = m')
    /\ (forall e, onItemKeyUp i e m' = m')
    /\ onItemMouseOver i m' = m'
    /\ onItemMouseLeave i m' = m'
    /\ (forall focusInside, onItemFocusOut i focusInside m' = m')
    /\ onParentScroll i m' = m'
    /\ (forall e, onSubmenuKeyUp i e m' = m')
    /\ onSubmenuCancel i m' = m'
    /\ (forall focusInside, timerFires i MouseUpTimer focusInside m' = m')
    /\ (forall focusInside, timerFires i HideTimer focusInside m' = m')
    /\ (forall selectFirst, createSubmenu selectFirst i m' = m').
Proof.
  intros m i it Hit Hsub m'. subst m'. unfold dispose. rewrite Hit.
  assert (i < length (viewItems m)) as Hi by by eapply lookup_lt_Some.
  clear Hit.
  destruct it as [c a ctx el co mn li ro mu my sc sd mo sh hi].
  destruct c; try discriminate.
  cbn [cls set_element set_mouseUpListener set_listening
       set_runOnceToEnableMouseUp set_submenuDisposables set_hideScheduler
       set_mysubmenu set_submenuContainer mysubmenu runOnceToEnableMouseUp
       hideScheduler _action _context element container mnemonic listening
       mouseUpListener submenuContainer submenuDisposables mouseOver
       showScheduler].
  destruct my as [sm|];
    (split; [reflexivity|]; split; [reflexivity|];
     split; [cbn; by rewrite list_lookup_insert_eq|];
     eapply inert_item; [by apply lookup_setItem|reflexivity..]).
Qed.

Lemma X13_disposed_item_is_inert_witness :
  log (dispose 1 avocadoOpenMenu) = MenuDisposed 0 :: log avocadoOpenMenu.
Proof.
  exact (proj1 (proj2 (X13_disposed_item_is_inert avocadoOpenMenu 1
                         avocadoOpenItem eq_refl eq_refl))).
Defined.

(** ** What the events do to one item *)

(** A property [Q] of item [i] that the three operations on submenus do
    not affect is kept by every handler that changes items through these
    operations only. *)
Section ItemHas.
Variable Q : ViewItem -> bool.
Variable i : nat.
Hypothesis Q_mysubmenu : forall it v, Q (set_mysubmenu v it) = Q it.
Hypothesis Q_submenuContainer :
  forall it v, Q (set_submenuContainer v it) = Q it.
Hypothesis Q_submenuDisposables :
  forall it v, Q (set_submenuDisposables v it) = Q it.

Lemma itemHas_setItem m j it it' :
  viewItems m !! j = Some it -> (j = i -> Q it = true -> Q it' = true) ->
  itemHas Q i m = true -> itemHas Q i (setItem j it' m) = true.
Proof.
  intros Hit HQ. unfold itemHas. cbn.
  destruct (decide (i = j)) as [->|Hne].
  - rewrite list_lookup_insert_eq by by eapply lookup_lt_Some.
    rewrite Hit. by apply HQ.
  - by rewrite list_lookup_insert_ne.
Qed.

Lemma itemHas_cleanup m force j :
  itemHas Q i m = true ->
  itemHas Q i (cleanupExistingSubmenu force j m) = true.
Proof.
  intros H. unfold cleanupExistingSubmenu.
  destruct (viewItems m !! j) as [it|] eqn:Hit; [|done].
  repeat case_match; try done.
  eapply itemHas_setItem; [exact Hit| |exact H].
  intros _. by rewrite Q_submenuContainer, Q_submenuDisposables.
Qed.

Lemma itemHas_create m selectFirst j :
  itemHas Q i m = true ->
  itemHas Q i (createSubmenu selectFirst j m) = true.
Proof.
  intros H. unfold createSubmenu.
  destruct (viewItems m !! j) as [it|] eqn:Hit; [|done].
  repeat case_match; try done.
  eapply itemHas_setItem; [exact Hit| |exact H].
  intros _.
  by rewrite Q_mysubmenu, Q_submenuDisposables, Q_submenuContainer.
Qed.

Lemma itemHas_showCallback m j :
  itemHas Q i m = true -> itemHas Q i (showCallback j m) = true.
Proof.
  apply (closed_showCallback (fun m => itemHas Q i m = true));
    auto using itemHas_cleanup, itemHas_create.
Qed.

Lemma itemHas_hideCallback m focusInside j :
  itemHas Q i m = true -> itemHas Q i (hideCallback focusInside j m) = true.
Proof.
  apply (closed_hideCallback (fun m => itemHas Q i m = true));
    auto using itemHas_cleanup.
Qed.

(** The events whose handlers write no field of an item themselves. *)
Lemma itemHas_composite m ev :
  itemHas Q i m = true ->
  match ev with
  | EvItemMouseOver _ | EvItemMouseLeave _ | EvItemFocusOut _ _
  | EvTimer _ _ _ | EvDispose _ => True
  | _ => itemHas Q i (step m ev) = true
  end.
Proof.
  intros H.
  assert (forall m arg, itemHas Q i m = true
                        -> itemHas Q i (focus arg m) = true) as Hfocus.
  { intros m0 arg.
    by apply (closed_focus (fun m => itemHas Q i m = true)). }
  assert (forall j m, itemHas Q i m = true
                      -> itemHas Q i (onClick j m) = true) as Hclick.
  { intros j m0.
    apply (closed_onClick (fun m => itemHas Q i m = true));
      auto using itemHas_cleanup, itemHas_create. }
  destruct ev; try done; cbn [step].
  - revert H. apply (closed_onKeyDown (fun m => itemHas Q i m = true));
      auto using itemHas_cleanup, itemHas_create.
  - unfold onMenuMouseOut. by case_match.
  - revert H.
    by apply (closed_focusItemByElement (fun m => itemHas Q i m = true)).
  - revert H. apply (closed_trigger (fun m => itemHas Q i m = true));
      auto using itemHas_cleanup, itemHas_create.
  - unfold openCall, open. repeat case_match;
      auto using itemHas_cleanup, itemHas_create.
  - by apply Hclick.
  - unfold onItemMouseUp. repeat case_match; auto.
  - unfold onItemKeyUp, whenListening.
    repeat case_match; auto using itemHas_create.
  - unfold onParentScroll, whenListening.
    repeat case_match; auto using itemHas_cleanup.
  - unfold onSubmenuKeyUp, whenSubmenuListening.
    repeat case_match; auto using itemHas_cleanup.
  - unfold onSubmenuCancel, whenSubmenuListening.
    repeat case_match; auto using itemHas_cleanup.
Qed.
End ItemHas.

(** ** The deferred mouse-up listener *)

Lemma unarmed_step i m ev :
  (forall focusInside, ev <> EvTimer i MouseUpTimer focusInside) ->
  itemHas unarmed i m = true -> itemHas unarmed i (step m ev) = true.
Proof.
  intros Hev H.
  pose proof (itemHas_composite unarmed i (fun _ _ => eq_refl)
                (fun _ _ => eq_refl) (fun _ _ => eq_refl) m ev H) as Hc.
  destruct ev as [| | | | | | | |j|j|j f| | | |j t f|j]; try exact Hc;
    clear Hc; cbn [step].
  - unfold onItemMouseOver, whenListening.
    destruct (viewItems m !! j) as [it|] eqn:Hit; [|done].
    repeat case_match; try done.
    eapply itemHas_setItem; [exact Hit|intros _ HQ; exact HQ|exact H].
  - unfold onItemMouseLeave, whenListening.
    destruct (viewItems m !! j) as [it|] eqn:Hit; [|done].
    repeat case_match; try done.
    eapply itemHas_setItem; [exact Hit|intros _ HQ; exact HQ|exact H].
  - unfold onItemFocusOut, whenListening.
    destruct (viewItems m !! j) as [it|] eqn:Hit; [|done].
    repeat case_match; try done.
    eapply itemHas_setItem; [exact Hit|intros _ HQ; exact HQ|exact H].
  - unfold timerFires.
    destruct (viewItems m !! j) as [it|] eqn:Hit; [|done].
    destruct (hasScheduler t it && scheduled (schedulerOf t it)); [|done].
    set (m1 := setItem j _ m).
    assert (itemHas unarmed i m1 = true) as H1.
    { eapply itemHas_setItem; [exact Hit| |exact H].
      intros _ HQ. by destruct t. }
    clearbody m1. destruct (runner (schedulerOf t it)); [|done].
    destruct t.
    + assert (j <> i) as Hne by (intros ->; by eapply Hev).
      unfold mouseUpCallback. cbn [viewItems emit set_log].
      destruct (viewItems m1 !! j) as [it1|] eqn:Hit1; [|done].
      destruct (element it1); [|done].
      eapply itemHas_setItem; [exact Hit1|by intros ?|exact H1].
    + by apply itemHas_showCallback.
    + by apply itemHas_hideCallback.
  - unfold dispose.
    destruct (viewItems m !! j) as [it|] eqn:Hit; [|done].
    repeat case_match;
      (eapply itemHas_setItem; [exact Hit|reflexivity|exact H]).
Qed.

Lemma pendingMouseUp_step i m ev :
  (forall focusInside, ev <> EvTimer i MouseUpTimer focusInside) ->
  ev <> EvDispose i ->
  itemHas pendingMouseUp i m = true ->
  itemHas pendingMouseUp i (step m ev) = true.
Proof.
  intros Hev Hdis H.
  pose proof (itemHas_composite pendingMouseUp i (fun _ _ => eq_refl)
                (fun _ _ => eq_refl) (fun _ _ => eq_refl) m ev H) as Hc.
  destruct ev as [| | | | | | | |j|j|j f| | | |j t f|j]; try exact Hc;
    clear Hc; cbn [step].
  - unfold onItemMouseOver, whenListening.
    destruct (viewItems m !! j) as [it|] eqn:Hit; [|done].
    repeat case_match; try done.
    eapply itemHas_setItem; [exact Hit|intros _ HQ; exact HQ|exact H].
  - unfold onItemMouseLeave, whenListening.
    destruct (viewItems m !! j) as [it|] eqn:Hit; [|done].
    repeat case_match; try done.
    eapply itemHas_setItem; [exact Hit|intros _ HQ; exact HQ|exact H].
  - unfold onItemFocusOut, whenListening.
    destruct (viewItems m !! j) as [it|] eqn:Hit; [|done].
    repeat case_match; try done.
    eapply itemHas_setItem; [exact Hit|intros _ HQ; exact HQ|exact H].
  - unfold timerFires.
    destruct (viewItems m !! j) as [it|] eqn:Hit; [|done].
    destruct (hasScheduler t it && scheduled (schedulerOf t it)); [|done].
    set (m1 := setItem j _ m).
    assert (itemHas pendingMouseUp i m1 = true) as H1.
    { eapply itemHas_setItem; [exact Hit| |exact H].
      intros -> HQ. destruct t; [by destruct (Hev f)|exact HQ..]. }
    clearbody m1. destruct (runner (schedulerOf t it)); [|done].
    destruct t.
    + assert (j <> i) as Hne by (intros ->; by eapply Hev).
      unfold mouseUpCallback. cbn [viewItems emit set_log].
      destruct (viewItems m1 !! j) as [it1|] eqn:Hit1; [|done].
      destruct (element it1); [|done].
      eapply itemHas_setItem; [exact Hit1|by intros ?|exact H1].
    + by apply itemHas_showCallback.
    + by apply itemHas_hideCallback.
  - assert (j <> i) as Hne by congruence.
    unfold dispose.
    destruct (viewItems m !! j) as [it|] eqn:Hit; [|done].
    repeat case_match;
      (eapply itemHas_setItem; [exact Hit|by intros ?|exact H]).
Qed.

Lemma itemHas_runEvents Q i (ok : Event -> Prop) :
  (forall m ev, ok ev -> itemHas Q i m = true
                -> itemHas Q i (step m ev) = true) ->
  forall evs m, Forall ok evs -> itemHas Q i m = true ->
                itemHas Q i (runEvents evs m) = true.
Proof.
  intros Hstep. induction evs as [|ev evs IH]; intros m Hevs H; [done|].
  inversion Hevs; subst. apply IH; [done|]. by apply Hstep.
Qed.

Lemma Menu_new_unarmed actions opts linux i :
  itemHas unarmed i (Menu_new actions opts linux) = true.
Proof.
  unfold itemHas. rewrite Menu_new_lookup.
  destruct (actions !! i) as [a|]; [|done]. cbn.
  unfold viewFor, doGetActionViewItem. by destruct (a_kind a).
Qed.

Lemma Menu_new_pendingMouseUp actions opts linux i a :
  actions !! i = Some a -> a_kind a <> SeparatorKind ->
  itemHas pendingMouseUp i (Menu_new actions opts linux) = true.
Proof.
  intros Ha Hk. unfold itemHas. rewrite Menu_new_lookup, Ha. cbn.
  unfold viewFor, doGetActionViewItem. by destruct (a_kind a).
Qed.

(** The mouse-up timer of an item that waits for it. *)
Lemma mouse_up_timer_arms m i it focusInside :
  viewItems m !! i = Some it -> pendingMouseUp it = true ->
  let m1 := timerFires i MouseUpTimer focusInside m in
  log m1 = CallbackRun i MouseUpTimer :: log m
  /\ onItemMouseUp i true m1 = m1
  /\ onItemMouseUp i false m1 = onClick i m1
  /\ timerFires i MouseUpTimer focusInside m1 = m1.
Proof.
  intros Hit HQ. unfold pendingMouseUp in HQ.
  apply andb_true_iff in HQ as [HQ Hup].
  apply andb_true_iff in HQ as [HQ Hrun].
  apply andb_true_iff in HQ as [HQ Hsch].
  apply andb_true_iff in HQ as [Hbase Hel].
  apply bool_decide_eq_true in Hel as [el Hel].
  assert (i < length (viewItems m)) as Hi by by eapply lookup_lt_Some.
  set (it1 := set_runOnceToEnableMouseUp
                (onTimeout (runOnceToEnableMouseUp it)) it).
  set (it2 := set_mouseUpListener true it1).
  set (m1 := setItem i it2
               (emit (CallbackRun i MouseUpTimer) (setItem i it1 m))).
  assert (timerFires i MouseUpTimer focusInside m = m1) as ->.
  { unfold timerFires. rewrite Hit.
    cbn [hasScheduler schedulerOf set_schedulerOf].
    rewrite Hbase, Hsch, Hrun. cbn [andb].
    unfold mouseUpCallback. cbn [viewItems emit set_log].
    rewrite lookup_setItem by done.
    subst it1. cbn [element set_runOnceToEnableMouseUp]. by rewrite Hel. }
  assert (viewItems m1 !! i = Some it2) as Hit2.
  { subst m1. apply lookup_setItem. cbn. by rewrite length_insert. }
  cbv zeta. split; [done|].
  unfold onItemMouseUp, timerFires. rewrite Hit2.
  cbn [hasScheduler schedulerOf].
  change (mouseUpListener it2) with true.
  change (scheduled (runOnceToEnableMouseUp it2)) with false.
  by rewrite !andb_false_r.
Qed.

(** X14.  The mouse-up listener of an item is attached by its 100 ms timer
    and by nothing else: until the timer of item [i] has elapsed, a
    mouse-up on the item does nothing, whatever happened to the menu in
    between.  When the timer of an item that was not disposed elapses, its
    callback runs once; from then on a mouse-up with the default prevented
    still does nothing, any other mouse-up is a click on the item, and the
    timer does not fire again. *)
Theorem X14_mouse_up_is_deferred :
  forall actions opts linux evs i,
    Forall (fun ev => forall focusInside,
              ev <> EvTimer i MouseUpTimer focusInside) evs ->
    let m := runEvents evs (Menu_new actions opts linux) in
    (forall prevented, onItemMouseUp i prevented m = m)
    /\ (forall a focusInside,
          actions !! i = Some a -> a_kind a <> SeparatorKind ->
          Forall (fun ev => ev <> EvDispose i) evs ->
          let m1 := timerFires i MouseUpTimer focusInside m in
          log m1 = CallbackRun i MouseUpTimer :: log m
          /\ onItemMouseUp i true m1 = m1
          /\ onItemMouseUp i false m1 = onClick i m1
          /\ timerFires i MouseUpTimer focusInside m1 = m1).
Proof.
  intros actions opts linux evs i Hevs m. split.
  - intros prevented.
    assert (itemHas unarmed i m = true) as H.
    { apply (itemHas_runEvents unarmed i
               (fun ev => forall f, ev <> EvTimer i MouseUpTimer f));
        [intros; by apply unarmed_step|done|apply Menu_new_unarmed]. }
    unfold itemHas, unarmed in H. unfold onItemMouseUp.
    destruct (viewItems m !! i) as [it|]; [|done].
    by destruct (mouseUpListener it).
  - intros a focusInside Ha Hk Hdis.
    assert (itemHas pendingMouseUp i m = true) as H.
    { apply (itemHas_runEvents pendingMouseUp i
               (fun ev => (forall f, ev <> EvTimer i MouseUpTimer f)
                          /\ ev <> EvDispose i)).
      - intros m0 ev [H1 H2]. by apply pendingMouseUp_step.
      - clear -Hevs Hdis. induction evs as [|ev evs IH]; [done|].
        inversion Hevs; inversion Hdis; subst. constructor; auto.
      - by eapply Menu_new_pendingMouseUp. }
    unfold itemHas in H.
    assert (is_Some (viewItems m !! i)) as [it Hit].
    { apply lookup_lt_is_Some. subst m.
      rewrite (sameShape_length (Menu_new actions opts linux))
        by apply sameShape_runEvents, sameShape_refl.
      rewrite Menu_new_length. by eapply lookup_lt_Some. }
    rewrite Hit in H. by apply mouse_up_timer_arms with it.
Qed.

Lemma X14_mouse_up_is_deferred_witness :
  onItemMouseUp 0 false
    (runEvents [EvItemMouseOver 1; EvKeyDown (keyEvent "a")]
       (Menu_new sampleActions sampleOptions true))
  = runEvents [EvItemMouseOver 1; EvKeyDown (keyEvent "a")]
      (Menu_new sampleActions sampleOptions true).
Proof.
  refine (proj1 (X14_mouse_up_is_deferred sampleActions sampleOptions true
                   [EvItemMouseOver 1; EvKeyDown (keyEvent "a")] 0 _)
            false).
  constructor; [intros f; discriminate|].
  constructor; [intros f; discriminate|]. constructor.
Defined.

(** ** The show timer during one visit of the pointer *)

Lemma shownOnce_step i m ev :
  ev <> EvItemMouseLeave i ->
  itemHas shownOnce i m = true -> itemHas shownOnce i (step m ev) = true.
Proof.
  intros Hev H.
  pose proof (itemHas_composite shownOnce i (fun _ _ => eq_refl)
                (fun _ _ => eq_refl) (fun _ _ => eq_refl) m ev H) as Hc.
  destruct ev as [| | | | | | | |j|j|j f| | | |j t f|j]; try exact Hc;
    clear Hc; cbn [step].
  - unfold onItemMouseOver, whenListening.
    destruct (viewItems m !! j) as [it|] eqn:Hit; [|done].
    destruct (isSubmenuItem it && listening it); [|done].
    destruct (mouseOver it) eqn:Hover; [done|].
    eapply itemHas_setItem; [exact Hit| |exact H].
    intros _ HQ. unfold shownOnce in HQ. by rewrite Hover in HQ.
  - assert (j <> i) as Hne by congruence.
    unfold onItemMouseLeave, whenListening.
    destruct (viewItems m !! j) as [it|] eqn:Hit; [|done].
    repeat case_match; try done.
    eapply itemHas_setItem; [exact Hit|by intros ?|exact H].
  - unfold onItemFocusOut, whenListening.
    destruct (viewItems m !! j) as [it|] eqn:Hit; [|done].
    repeat case_match; try done.
    eapply itemHas_setItem; [exact Hit|intros _ HQ; exact HQ|exact H].
  - unfold timerFires.
    destruct (viewItems m !! j) as [it|] eqn:Hit; [|done].
    destruct (hasScheduler t it && scheduled (schedulerOf t it)); [|done].
    set (m1 := setItem j _ m).
    assert (itemHas shownOnce i m1 = true) as H1.
    { eapply itemHas_setItem; [exact Hit| |exact H].
      intros _ HQ. destruct t; [exact HQ| |exact HQ].
      apply andb_true_iff in HQ as [HQ _]. unfold shownOnce. cbn.
      by rewrite HQ. }
    clearbody m1. destruct (runner (schedulerOf t it)); [|done].
    destruct t.
    + unfold mouseUpCallback. cbn [viewItems emit set_log].
      destruct (viewItems m1 !! j) as [it1|] eqn:Hit1; [|done].
      destruct (element it1); [|done].
      eapply itemHas_setItem; [exact Hit1|intros _ HQ; exact HQ|exact H1].
    + by apply itemHas_showCallback.
    + by apply itemHas_hideCallback.
  - unfold dispose.
    destruct (viewItems m !! j) as [it|] eqn:Hit; [|done].
    repeat case_match;
      (eapply itemHas_setItem; [exact Hit|intros _ HQ; exact HQ|exact H]).
Qed.

(** The pointer has entered a submenu item and the show timer has
    elapsed. *)
Lemma shownOnce_after_timer m i it focusInside :
  viewItems m !! i = Some it -> listeningSubmenuItem it = true ->
  itemHas shownOnce i (timerFires i ShowTimer focusInside
                         (onItemMouseOver i m)) = true.
Proof.
  intros Hit Hlis. unfold listeningSubmenuItem in Hlis.
  assert (i < length (viewItems m)) as Hi by by eapply lookup_lt_Some.
  apply andb_true_iff in Hlis as [Hsub Hlis].
  assert (exists it1, viewItems (onItemMouseOver i m) !! i = Some it1
                      /\ mouseOver it1 = true
                      /\ isSubmenuItem it1 = true)
    as (it1 & Hit1 & Hover & Hsub1).
  { unfold onItemMouseOver, whenListening. rewrite Hit, Hsub, Hlis.
    destruct (mouseOver it) eqn:Hover; [by exists it|].
    eexists. split; [by apply lookup_setItem|done]. }
  set (m1 := onItemMouseOver i m) in *. clearbody m1.
  unfold timerFires. rewrite Hit1.
  destruct (hasScheduler ShowTimer it1
            && scheduled (schedulerOf ShowTimer it1)) eqn:Hs.
  - set (m2 := setItem i _ m1).
    assert (itemHas shownOnce i m2 = true) as H2.
    { unfold itemHas. subst m2.
      rewrite lookup_setItem by by eapply lookup_lt_Some.
      unfold shownOnce. cbn. by rewrite Hover. }
    clearbody m2. destruct (runner (schedulerOf ShowTimer it1)); [|done].
    by apply itemHas_showCallback.
  - unfold itemHas. rewrite Hit1. unfold shownOnce. rewrite Hover.
    apply andb_false_iff in Hs as [Hs|Hs]; cbn in Hs |- *.
    + congruence.
    + by rewrite Hs.
Qed.

(** X15.  The show timer fires once per visit of the pointer.  After the
    pointer has entered a submenu item and the show timer has elapsed,
    and until the pointer leaves the item, a further mouse-over on the
    item does nothing and the show timer does nothing when it elapses,
    whatever else happens to the menu in between. *)
Theorem X15_show_timer_once_per_visit :
  forall m i it evs focusInside focusInside',
    viewItems m !! i = Some it -> listeningSubmenuItem it = true ->
    Forall (fun ev => ev <> EvItemMouseLeave i) evs ->
    let m' :=
      runEvents evs
        (timerFires i ShowTimer focusInside (onItemMouseOver i m)) in
    onItemMouseOver i m' = m'
    /\ timerFires i ShowTimer focusInside' m' = m'.
Proof.
  intros m i it evs f f' Hit Hlis Hevs m'.
  assert (itemHas shownOnce i m' = true) as H.
  { apply (itemHas_runEvents shownOnce i
             (fun ev => ev <> EvItemMouseLeave i));
      [intros; by apply shownOnce_step|done|].
    by apply shownOnce_after_timer with it. }
  unfold itemHas, shownOnce in H.
  unfold onItemMouseOver, whenListening, timerFires.
  destruct (viewItems m' !! i) as [it'|]; [|done].
  apply andb_true_iff in H as [-> Hs]. apply negb_true_iff in Hs.
  cbn [schedulerOf]. rewrite Hs, andb_false_r.
  by destruct (isSubmenuItem it' && listening it').
Qed.

Lemma X15_show_timer_once_per_visit_witness :
  timerFires 1 ShowTimer false
    (runEvents [EvItemMouseOver 1; EvItemFocusOut 1 false]
       (timerFires 1 ShowTimer false (onItemMouseOver 1 sampleMenu)))
  = runEvents [EvItemMouseOver 1; EvItemFocusOut 1 false]
      (timerFires 1 ShowTimer false (onItemMouseOver 1 sampleMenu)).
Proof.
  refine (proj2 (X15_show_timer_once_per_visit sampleMenu 1 avocadoItem
                   [EvItemMouseOver 1; EvItemFocusOut 1 false] false false
                   eq_refl eq_refl _)).
  constructor; [discriminate|]. constructor; [discriminate|]. constructor.
Defined.

(** ** Focus by element *)

Lemma indexOfFrom_absent e l : forall k,
  e ∉ l -> indexOfFrom k e l = None.
Proof.
  induction l as [|x l IH]; intros k He; [done|].
  apply not_elem_of_cons in He as [Hne He]. cbn.
  destruct (x =? e) eqn:E; [apply Nat.eqb_eq in E; congruence|].
  by apply IH.
Qed.

Lemma indexOfFrom_first e l : forall k i,
  l !! i = Some e -> (forall j, j < i -> l !! j <> Some e) ->
  indexOfFrom k e l = Some (k + i).
Proof.
  induction l as [|x l IH]; intros k i Hi Hfirst; [done|].
  cbn. destruct i as [|i].
  - cbn in Hi. injection Hi as ->. rewrite Nat.eqb_refl. f_equal. lia.
  - destruct (x =? e) eqn:E.
    + apply Nat.eqb_eq in E. subst x. by destruct (Hfirst 0); [lia|].
    + rewrite (IH (S k) i); [f_equal; lia|done|].
      intros j Hj. apply (Hfirst (S j)). lia.
Qed.

Lemma focusItemByElement_same e m i :
  indexOfFrom 0 e (children m) = Some i ->
  focusedItem m = Some (Z.of_nat i) -> focusItemByElement e m = m.
Proof.
  intros Hi Hf. unfold focusItemByElement, setFocusedItem. rewrite Hi.
  cbn. rewrite Hf, bool_decide_true by done.
  destruct m. cbn in *. by subst.
Qed.

(** X16.  [focusItemByElement] focuses the first child of the actions list
    that is the given element, and refreshes the focus only when the
    focused position has changed; for an element that is no child of the
    list it changes nothing.  Calling it again with the same element
    changes nothing more. *)
Theorem X16_focus_by_element :
  forall m e,
    (e ∉ children m -> focusItemByElement e m = m)
    /\ (forall i,
          children m !! i = Some e ->
          (forall j, j < i -> children m !! j <> Some e) ->
          focusedItem (focusItemByElement e m) = Some (Z.of_nat i)
          /\ log (focusItemByElement e m)
             = if bool_decide (focusedItem m = Some (Z.of_nat i))
               then log m else FocusUpdated :: log m)
    /\ focusItemByElement e (focusItemByElement e m)
       = focusItemByElement e m.
Proof.
  intros m e. split; [|split].
  - intros He. unfold focusItemByElement, setFocusedItem.
    rewrite indexOfFrom_absent by done. by rewrite bool_decide_true.
  - intros i Hi Hfirst. unfold focusItemByElement, setFocusedItem.
    rewrite (indexOfFrom_first e _ 0 i) by done. cbn.
    by repeat case_bool_decide.
  - destruct (indexOfFrom 0 e (children m)) as [i|] eqn:Hi.
    + apply focusItemByElement_same with i;
        unfold focusItemByElement, setFocusedItem; rewrite Hi;
        by case_bool_decide.
    + assert (focusItemByElement e m = m) as H0; [|by rewrite !H0].
      unfold focusItemByElement, setFocusedItem. rewrite Hi.
      by rewrite bool_decide_true.
Qed.
